(** * Octree marching cubes: [TreeMeshBuilder]

    A shallow embedding of [src/parallel_builder/tree_mesh_builder.cpp]
    (and the class declaration in [tree_mesh_builder.h]) together with the
    properties of the octree traversal, the field evaluator and the
    triangle sink.

    - C++ [float] is IEEE-754 binary32: [spec_float] of the Standard
      Library with [prec = 24], [emax = 128].  Every operation rounds to
      nearest, ties to even, as [SFadd], [SFsub], [SFmul], [SFdiv] and
      [SFsqrt] do; expressions are evaluated operation by operation in
      [float] (no fused multiply-add, no wider intermediate format).
      [sqrt] of [<math.h>] applied to a [float] and returned as [float]
      gives the correctly rounded binary32 square root.
    - C++ [unsigned] is a [Z] in [0, 2^32) with the wrap-around written out.
    - [std::vector] is a [list]; [push_back] appends at the end.
    - Member functions that touch [this] run in a small state monad over
      the object; the recursion of [treeTraversal] is bounded by fuel, and
      running out of fuel is [None].
    - The source creates no OpenMP task: [treeTraversal] calls itself
      sequentially, and the [critical] section of [emitTriangle] has nothing
      to exclude.  The embedding is sequential.
    - [BaseMeshBuilder] (its members, [buildCube], [sc_vertexNormPos]) is
      not part of the sources at hand; what the traversal uses of it is
      modelled below, each piece under a comment that says so. *)

From Stdlib Require Import ZArith List Bool Lia Permutation.
From Stdlib Require Import Floats.SpecFloat.
Import ListNotations.

Local Open Scope Z_scope.

(* ================================================================== *)
(** ** binary32 arithmetic *)

Module F32.

Definition prec : Z := 24.
Definition emax : Z := 128.

Definition float : Type := spec_float.

Definition add : float -> float -> float := SFadd prec emax.
Definition sub : float -> float -> float := SFsub prec emax.
Definition mul : float -> float -> float := SFmul prec emax.
Definition div : float -> float -> float := SFdiv prec emax.
Definition sqrt : float -> float := SFsqrt prec emax.
Definition ltb : float -> float -> bool := SFltb.
Definition leb : float -> float -> bool := SFleb.
Definition eqb : float -> float -> bool := SFeqb.

(** [a > b] in C++ is [b < a]; both are false on NaN. *)
Definition gtb (a b : float) : bool := ltb b a.

(** A well-formed binary32 value. *)
Definition valid (f : float) : bool := valid_binary prec emax f.

(** [static_cast<float>(n)] for an integer [n]. *)
Definition of_Z (n : Z) : float := binary_normalize prec emax n 0 false.

(** A decimal literal [m / 10^d] with the suffix [f], rounded to the
    nearest binary32. *)
Definition of_decimal (m : positive) (d : positive) : float :=
  let '(q, e, l) :=
    SFdiv_core_binary prec emax (Zpos m) 0 (Zpos (Pos.pow 10 d)) 0 in
  binary_round_aux prec emax false q e l.

(** [std::numeric_limits<float>::max()]. *)
Definition max_float : float := SFmax_float prec emax.

(** [std::min(a, b)] is [(b < a) ? b : a]. *)
Definition min (a b : float) : float := if ltb b a then b else a.

Definition one : float := of_Z 1.
Definition two : float := of_Z 2.
Definition zero : float := S754_zero false.

(** The power of two [2^k] as a binary32 value (normal for [k] in
    [-126, 127]). *)
Definition pow2 (k : Z) : float := S754_finite false 8388608 (k - 23).

End F32.

Abbreviation float := F32.float.

Declare Scope f32_scope.
Delimit Scope f32_scope with f32.
Infix "+" := F32.add : f32_scope.
Infix "-" := F32.sub : f32_scope.
Infix "*" := F32.mul : f32_scope.
Infix "/" := F32.div : f32_scope.
Infix "<?" := F32.ltb : f32_scope.
Infix "<=?" := F32.leb : f32_scope.
Infix ">?" := F32.gtb : f32_scope.
Infix "=?" := F32.eqb : f32_scope.

(* ================================================================== *)
(** ** Data model *)

(** [Vec3_t<float>]. *)
Record Vec3_t : Type := mkVec3 { x : float; y : float; z : float }.

(** Modelled from the spec: [BaseMeshBuilder::Triangle_t] is declared in
    [base_mesh_builder.h], which is not under src/; a triangle is three 3D
    vertex positions. *)
Record Triangle_t : Type := mkTriangle { v0 : Vec3_t; v1 : Vec3_t; v2 : Vec3_t }.

(** [ParametricScalarField]: only [getPoints()] is used, the immutable
    ordered sequence of sample points. *)
Record ParametricScalarField : Type := mkField { getPoints : list Vec3_t }.

(** The [TreeMeshBuilder] object: the three members inherited from
    [BaseMeshBuilder] that the traversal reads, and its own [mTriangles]. *)
Record TreeMeshBuilder : Type := mkBuilder {
  mGridSize : Z;              (* unsigned *)
  mGridResolution : float;
  mIsoLevel : float;
  mTriangles : list Triangle_t
}.

(** [constexpr float sqrt3Div2 = 0.86602540378f;] *)
Definition sqrt3Div2 : float := Eval vm_compute in F32.of_decimal 86602540378 11.

(** [constexpr float gridSizeCutoff = 1.0f;] *)
Definition gridSizeCutoff : float := Eval vm_compute in F32.one.

(** Modelled from the spec: [BaseMeshBuilder::sc_vertexNormPos] is defined
    in [base_mesh_builder.cpp], which is not under src/; it is the table of
    the 8 unit-cube corner offsets, entry 0 being the minimum corner. *)
Definition sc_vertexNormPos : list Vec3_t :=
  let o := F32.zero in
  let i := gridSizeCutoff in
  [ mkVec3 o o o; mkVec3 i o o; mkVec3 i i o; mkVec3 o i o;
    mkVec3 o o i; mkVec3 i o i; mkVec3 i i i; mkVec3 o i i ].

Arguments sc_vertexNormPos : simpl never.

(** 32-bit [unsigned] arithmetic. *)
Definition UINT_MOD : Z := 2 ^ 32.
Definition to_unsigned (n : Z) : Z := n mod UINT_MOD.
Definition uadd (a b : Z) : Z := to_unsigned (a + b).

(* ================================================================== *)
(** ** [TreeMeshBuilder::evaluateFieldAt] *)

(** The body of the loop: the squared distance, accumulated in three
    statements, then [value = std::min(value, distanceSquared)]. *)
Definition distanceSquared (pos p : Vec3_t) : float :=
  let d := ((x pos - x p) * (x pos - x p))%f32 in
  let d := (d + (y pos - y p) * (y pos - y p))%f32 in
  let d := (d + (z pos - z p) * (z pos - z p))%f32 in
  d.

Definition evaluateFieldAt (pos : Vec3_t) (field : ParametricScalarField) : float :=
  let pPoints := getPoints field in
  let count := to_unsigned (Z.of_nat (length (getPoints field))) in
  let value := F32.max_float in
  let value :=
    fold_left (fun value p => F32.min value (distanceSquared pos p))
              (firstn (Z.to_nat count) pPoints) value in
  F32.sqrt value.

(* ================================================================== *)
(** ** The state of a run *)

(** The calls a run makes, in order.  The log is ghost state: the code
    keeps no such record and never reads it.  [level] is the number of
    subdivisions between the root cell and the cell of the call. *)
Inductive Event : Type :=
| Enter (level : nat) (pos : Vec3_t) (gridSize : float)
    (* [treeTraversal(pos, field, gridSize)] is entered *)
| BuildCube (level : nat) (pos : Vec3_t) (gridSize : float)
    (* [buildCube(pos, field)] is called from the cell [(pos, gridSize)] *).

Record World : Type := mkWorld {
  this : TreeMeshBuilder;
  calls : list Event
}.

(** State monad over the run; [None] is fuel exhaustion. *)
Definition M (A : Type) : Type := World -> option (A * World).

Definition ret {A : Type} (a : A) : M A := fun w => Some (a, w).

Definition bind {A B : Type} (m : M A) (k : A -> M B) : M B :=
  fun w => match m w with
           | Some (a, w') => k a w'
           | None => None
           end.

Notation "x <- m ;; k" := (bind m (fun x => k))
  (at level 61, m at next level, right associativity).
Notation "m ;; k" := (bind m (fun _ => k))
  (at level 61, right associativity).

Definition out_of_fuel {A : Type} : M A := fun _ => None.

Definition getThis : M TreeMeshBuilder := fun w => Some (this w, w).

Definition record (e : Event) : M unit :=
  fun w => Some (tt, mkWorld (this w) (calls w ++ [e])).

(** [for (... : l) acc = body(a, acc);] *)
Fixpoint for_each {A : Type} (l : list A) (body : A -> Z -> M Z) (acc : Z) : M Z :=
  match l with
  | [] => ret acc
  | a :: l' => acc' <- body a acc ;; for_each l' body acc'
  end.

(* ================================================================== *)
(** ** [TreeMeshBuilder::emitTriangle] and [getTrianglesArray] *)

(** [mTriangles.push_back(triangle)] on the object. *)
Definition push_back (b : TreeMeshBuilder) (triangle : Triangle_t) : TreeMeshBuilder :=
  mkBuilder (mGridSize b) (mGridResolution b) (mIsoLevel b)
            (mTriangles b ++ [triangle]).

Definition emitTriangle (triangle : Triangle_t) : M unit :=
  fun w => Some (tt, mkWorld (push_back (this w) triangle) (calls w)).

(** [getTrianglesArray() { return mTriangles.data(); }]: the buffer as the
    caller reads it. *)
Definition getTrianglesArray (b : TreeMeshBuilder) : list Triangle_t := mTriangles b.

(* ================================================================== *)
(** ** The Cube Builder *)

(** Modelled from the spec: [BaseMeshBuilder::buildCube] is defined in
    [base_mesh_builder.cpp], which is not under src/.  It is the opaque
    operation [buildCube(position, field) -> triangleCount] that, for the
    unit cell at [position], hands its triangles to [emitTriangle] one by
    one and returns an [unsigned] count.  What it emits and what it returns
    depend on the cell, the field and the two constants of the run (grid
    resolution, isolevel); the two are kept apart so that "the count is the
    number of triangles emitted" is a property and not a definition. *)
Record CubeBuilder : Type := mkCubeBuilder {
  cubeTriangles : float -> float -> Vec3_t -> ParametricScalarField -> list Triangle_t;
  cubeCount : float -> float -> Vec3_t -> ParametricScalarField -> Z
}.

Fixpoint emitAll (ts : list Triangle_t) : M unit :=
  match ts with
  | [] => ret tt
  | t :: ts' => emitTriangle t ;; emitAll ts'
  end.

Definition buildCube (cube : CubeBuilder) (pos : Vec3_t) (field : ParametricScalarField) : M Z :=
  b <- getThis ;;
  emitAll (cubeTriangles cube (mGridResolution b) (mIsoLevel b) pos field) ;;
  ret (to_unsigned (cubeCount cube (mGridResolution b) (mIsoLevel b) pos field)).

(* ================================================================== *)
(** ** [TreeMeshBuilder::treeTraversal] and [marchCubes] *)

Section Traversal.

Variable cube : CubeBuilder.

(** Lines 26-56.  [level] is ghost, like the log: the depth of the call
    below the root, which the code does not pass and nothing but the log
    reads. *)
Fixpoint treeTraversal (fuel : nat) (level : nat) (pos : Vec3_t)
         (field : ParametricScalarField) (gridSize : float) : M Z :=
  match fuel with
  | O => out_of_fuel
  | S fuel' =>
    record (Enter level pos gridSize) ;;
    b <- getThis ;;
    let totalTriangles := 0 in
    let edgeSize := (gridSize * mGridResolution b)%f32 in
    let halfGridSize := (gridSize / F32.two)%f32 in
    let cubeCenter3D :=
      mkVec3 ((x pos + halfGridSize) * mGridResolution b)%f32
             ((y pos + halfGridSize) * mGridResolution b)%f32
             ((z pos + halfGridSize) * mGridResolution b)%f32 in
    if (evaluateFieldAt cubeCenter3D field >? mIsoLevel b + sqrt3Div2 * edgeSize)%f32 then
      ret 0
    else if (gridSize =? gridSizeCutoff)%f32 then
      record (BuildCube level pos gridSize) ;;
      n <- buildCube cube pos field ;;
      ret (uadd totalTriangles n)
    else
      for_each sc_vertexNormPos
        (fun off totalTriangles =>
           let newPos :=
             mkVec3 (x pos + halfGridSize * x off)%f32
                    (y pos + halfGridSize * y off)%f32
                    (z pos + halfGridSize * z off)%f32 in
           n <- treeTraversal fuel' (S level) newPos field halfGridSize ;;
           ret (uadd totalTriangles n))
        totalTriangles
  end.

(** Lines 58-69. *)
Definition marchCubes (fuel : nat) (field : ParametricScalarField) : M Z :=
  b <- getThis ;;
  let gridSize := F32.of_Z (mGridSize b) in
  totalTriangles <- treeTraversal fuel 0 (nth 0 sc_vertexNormPos (mkVec3 F32.zero F32.zero F32.zero))
                                  field gridSize ;;
  ret totalTriangles.

End Traversal.

(** The pieces of [treeTraversal], by name. *)

(** [cubeCenter3D] of the cell [(pos, gridSize)]. *)
Definition cubeCenter3D (b : TreeMeshBuilder) (pos : Vec3_t) (gridSize : float) : Vec3_t :=
  let halfGridSize := (gridSize / F32.two)%f32 in
  mkVec3 ((x pos + halfGridSize) * mGridResolution b)%f32
         ((y pos + halfGridSize) * mGridResolution b)%f32
         ((z pos + halfGridSize) * mGridResolution b)%f32.

(** The right-hand side of the test of line 38:
    [mIsoLevel + sqrt3Div2 * edgeSize]. *)
Definition pruneThreshold (b : TreeMeshBuilder) (gridSize : float) : float :=
  let edgeSize := (gridSize * mGridResolution b)%f32 in
  (mIsoLevel b + sqrt3Div2 * edgeSize)%f32.

(** The test of line 38. *)
Definition pruneTest (b : TreeMeshBuilder) (pos : Vec3_t)
           (field : ParametricScalarField) (gridSize : float) : bool :=
  (evaluateFieldAt (cubeCenter3D b pos gridSize) field >? pruneThreshold b gridSize)%f32.

(** [newPos] of lines 47-49 for the corner offset [off]. *)
Definition childPos (pos : Vec3_t) (halfGridSize : float) (off : Vec3_t) : Vec3_t :=
  mkVec3 (x pos + halfGridSize * x off)%f32
         (y pos + halfGridSize * y off)%f32
         (z pos + halfGridSize * z off)%f32.

(* ================================================================== *)
(** ** Reading the log *)

Definition eventLevel (e : Event) : nat :=
  match e with Enter l _ _ | BuildCube l _ _ => l end.

Definition eventGridSize (e : Event) : float :=
  match e with Enter _ _ g | BuildCube _ _ g => g end.

Definition isBuildCube (e : Event) : bool :=
  match e with BuildCube _ _ _ => true | Enter _ _ _ => false end.

(** The [buildCube] invocations of a log, and its [treeTraversal] calls. *)
Definition buildCubeCalls (evs : list Event) : list Event := filter isBuildCube evs.
Definition traversalCalls (evs : list Event) : list Event :=
  filter (fun e => negb (isBuildCube e)) evs.

(** The deepest level a log reaches. *)
Definition maxLevel (evs : list Event) : nat :=
  fold_right (fun e m => Nat.max (eventLevel e) m) O evs.

(** The cells handed to [buildCube], in call order. *)
Definition builtCells (evs : list Event) : list Vec3_t :=
  flat_map (fun e => match e with BuildCube _ p _ => [p] | Enter _ _ _ => [] end) evs.

(** What the [buildCube] calls of a log emit and return on the object [b]. *)
Definition emittedBy (cube : CubeBuilder) (b : TreeMeshBuilder)
           (field : ParametricScalarField) (cells : list Vec3_t) : list Triangle_t :=
  flat_map (fun p => cubeTriangles cube (mGridResolution b) (mIsoLevel b) p field) cells.

Definition returnedBy (cube : CubeBuilder) (b : TreeMeshBuilder)
           (field : ParametricScalarField) (cells : list Vec3_t) : list Z :=
  map (fun p => to_unsigned (cubeCount cube (mGridResolution b) (mIsoLevel b) p field)) cells.

(** The sum of a list of counts in [unsigned] arithmetic. *)
Definition usum (l : list Z) : Z := to_unsigned (fold_right Z.add 0 l).

(** The object with [ts] appended to its buffer. *)
Definition appended (b : TreeMeshBuilder) (ts : list Triangle_t) : TreeMeshBuilder :=
  mkBuilder (mGridSize b) (mGridResolution b) (mIsoLevel b) (mTriangles b ++ ts).

(** The world once the call on [(pos, gridSize)] has been logged. *)
Definition entered (level : nat) (pos : Vec3_t) (gridSize : float) (w : World) : World :=
  mkWorld (this w) (calls w ++ [Enter level pos gridSize]).

(** [w'] is [w] after a piece of run that logged [evs] and returned [n]:
    the log grew by [evs], the buffer grew by what the [buildCube] calls
    of [evs] emit, nothing else changed, and [n] is the [unsigned] sum of
    what those calls returned. *)
Definition extends (cube : CubeBuilder) (field : ParametricScalarField)
           (w w' : World) (n : Z) (evs : list Event) : Prop :=
  calls w' = calls w ++ evs /\
  this w' = appended (this w) (emittedBy cube (this w) field (builtCells evs)) /\
  n = usum (returnedBy cube (this w) field (builtCells evs)).

(** The log a traversal leaves on a cell that is [depth] halvings above
    the unit cells, told as a list: the call itself, then nothing when
    line 38 holds, the one [buildCube] on a unit cell, the logs of the 8
    children otherwise. *)
Fixpoint octreeTrace (b : TreeMeshBuilder) (field : ParametricScalarField)
         (depth level : nat) (pos : Vec3_t) (gridSize : float) : list Event :=
  Enter level pos gridSize ::
  if pruneTest b pos field gridSize then []
  else match depth with
       | O => [BuildCube level pos gridSize]
       | S d =>
         flat_map (fun off => octreeTrace b field d (S level)
                                (childPos pos (gridSize / F32.two)%f32 off)
                                (gridSize / F32.two)%f32)
                  sc_vertexNormPos
       end.

(** The cell of an event of the log of a cell [2^k] wide entered at
    [level]: it lies between [level] and [level + k], its edge is halved
    once per level, and a [buildCube] call sits on the last level, on a
    cell of edge exactly [gridSizeCutoff]. *)
Definition wellPlaced (level k : nat) (e : Event) : Prop :=
  (level <= eventLevel e <= level + k)%nat /\
  eventGridSize e = F32.pow2 (Z.of_nat (level + k - eventLevel e)) /\
  (isBuildCube e = true ->
   eventLevel e = (level + k)%nat /\ eventGridSize e = gridSizeCutoff).

(* ================================================================== *)
(** ** Reference definitions, after the spec's words *)

(** "A cell of size S splits into 8 children of size S/2": every unit leaf
    cell below the cell [(pos, gridSize)] after [depth] subdivisions, no
    cell left out. *)
Fixpoint leafCells (depth : nat) (pos : Vec3_t) (gridSize : float) : list Vec3_t :=
  match depth with
  | O => [pos]
  | S d =>
    let halfGridSize := (gridSize / F32.two)%f32 in
    flat_map (fun off => leafCells d (childPos pos halfGridSize off) halfGridSize)
             sc_vertexNormPos
  end.

(** "Sequentially building every leaf cube with no pruning": the sum of
    the counts [buildCube] returns over all unit leaf cells. *)
Definition buildEveryLeaf (cube : CubeBuilder) (b : TreeMeshBuilder)
           (field : ParametricScalarField) (depth : nat) (pos : Vec3_t) (gridSize : float) : Z :=
  usum (returnedBy cube b field (leafCells depth pos gridSize)).

(** The unit leaf cells the traversal never reaches: those enclosed by a
    cell on which the test of line 38 holds. *)
Fixpoint prunedLeaves (b : TreeMeshBuilder) (field : ParametricScalarField)
         (depth : nat) (pos : Vec3_t) (gridSize : float) : list Vec3_t :=
  if pruneTest b pos field gridSize then leafCells depth pos gridSize
  else match depth with
       | O => []
       | S d =>
         let halfGridSize := (gridSize / F32.two)%f32 in
         flat_map (fun off => prunedLeaves b field d (childPos pos halfGridSize off) halfGridSize)
                  sc_vertexNormPos
       end.

(** "Return the square root of the minimum over all points of the squared
    distance": the minimum starts from the first point. *)
Definition minSquaredDistance (pos : Vec3_t) (points : list Vec3_t) : option float :=
  match points with
  | [] => None
  | p :: ps => Some (fold_left (fun m q => F32.min m (distanceSquared pos q)) ps
                               (distanceSquared pos p))
  end.

(** *** The grid, cell by cell

    Used to check that the leaves of the octree are the unit cells of the
    grid. *)

(** The same binary32 datum (not [==], which identifies the two zeros). *)
Definition same_float (a b : float) : bool :=
  match a, b with
  | S754_nan, S754_nan => true
  | S754_zero s, S754_zero t => Bool.eqb s t
  | S754_infinity s, S754_infinity t => Bool.eqb s t
  | S754_finite s m e, S754_finite t n f => Bool.eqb s t && Pos.eqb m n && Z.eqb e f
  | _, _ => false
  end.

Definition same_vec (p q : Vec3_t) : bool :=
  same_float (x p) (x q) && same_float (y p) (y q) && same_float (z p) (z q).

(** The unit cells of a grid of edge [n], by their integer origin
    [(i, j, k)], [0 <= i, j, k < n]. *)
Definition gridCells (n : nat) : list Vec3_t :=
  let range := map Z.of_nat (seq 0 n) in
  flat_map (fun k =>
    flat_map (fun j =>
      map (fun i => mkVec3 (F32.of_Z i) (F32.of_Z j) (F32.of_Z k)) range) range) range.

(** [l1] lists every element of [l2] exactly once, and nothing else. *)
Definition lists_once (l1 l2 : list Vec3_t) : bool :=
  Nat.eqb (length l1) (length l2)
  && forallb (fun c => Nat.eqb (length (filter (same_vec c) l1)) 1) l2.

(** Modelled from the spec: the Cube Builder "evaluates a single unit-size
    cell's 8 corners, classifies the configuration, emits triangles"; its
    body and its edge/triangle table are not under src/.  [cornerInside] is
    the classification of one corner of the unit cell at [pos] (its field
    value is below the isolevel), the corner being scaled to world
    coordinates by the grid resolution as the traversal scales the centre. *)
Definition cornerInside (res iso : float) (pos : Vec3_t)
           (field : ParametricScalarField) (off : Vec3_t) : bool :=
  (evaluateFieldAt (mkVec3 ((x pos + x off) * res) ((y pos + y off) * res)
                           ((z pos + z off) * res)) field <? iso)%f32.

Definition cubeConfiguration (res iso : float) (pos : Vec3_t)
           (field : ParametricScalarField) : list bool :=
  map (cornerInside res iso pos field) sc_vertexNormPos.

(** The isosurface crosses the cell: some corner is inside, some outside. *)
Definition straddles (config : list bool) : bool :=
  existsb (fun c => c) config && existsb negb config.

(** Modelled from the spec: a Cube Builder reduced to what decides whether
    a cell contributes at all.  A cell whose corners lie on one side of
    the isolevel yields no triangle; a cell the surface crosses yields one
    (the table-driven routine yields one to five there). *)
Definition crossingCube : CubeBuilder :=
  mkCubeBuilder
    (fun res iso pos field =>
       if straddles (cubeConfiguration res iso pos field)
       then [mkTriangle pos pos pos] else [])
    (fun res iso pos field =>
       if straddles (cubeConfiguration res iso pos field) then 1 else 0).

(** A Cube Builder that finds [n] triangles in every cell. *)
Definition uniformCube (n : nat) : CubeBuilder :=
  mkCubeBuilder
    (fun _ _ pos _ => repeat (mkTriangle pos pos pos) n)
    (fun _ _ _ _ => Z.of_nat n).

(* ================================================================== *)
(** ** Concrete runs used below *)

Definition origin : Vec3_t := mkVec3 F32.zero F32.zero F32.zero.

Definition emptyField : ParametricScalarField := mkField [].

(** The isolevel [0.15f]. *)
Definition iso015 : float := Eval vm_compute in F32.of_decimal 15 2.

(** A fresh builder for a 4x4x4 grid over the unit cube. *)
Definition builder4 : TreeMeshBuilder := mkBuilder 4 (F32.pow2 (-2)) iso015 [].

(** A fresh builder for a 2x2x2 grid over the unit cube. *)
Definition builder2 : TreeMeshBuilder := mkBuilder 2 (F32.pow2 (-1)) iso015 [].

(** A fresh builder for a single unit cell. *)
Definition builder1 : TreeMeshBuilder := mkBuilder 1 gridSizeCutoff iso015 [].

(** One sample point in the middle of the unit cube. *)
Definition centreField : ParametricScalarField :=
  mkField [mkVec3 (F32.pow2 (-1)) (F32.pow2 (-1)) (F32.pow2 (-1))].

(** The coordinate [0.1f]. *)
Definition tenth : float := Eval vm_compute in F32.of_decimal 1 1.

(** One sample point next to corner 0 of the grid, at [(0.1, 0, 0)]. *)
Definition cornerField : ParametricScalarField :=
  mkField [mkVec3 tenth F32.zero F32.zero].

(** One sample point far outside the grid, at [(8, 8, 8)]. *)
Definition farField : ParametricScalarField :=
  mkField [mkVec3 (F32.pow2 3) (F32.pow2 3) (F32.pow2 3)].

(** A tie: one unit cell, a sample point at distance exactly 1 from its
    centre, and the isolevel [1 - sqrt3Div2], so that the threshold of
    line 38 is exactly [1.0f]. *)
Definition tieBuilder : TreeMeshBuilder :=
  mkBuilder 1 gridSizeCutoff (S754_finite false 8990884 (-26)) [].
Definition tieField : ParametricScalarField :=
  mkField [mkVec3 (F32.pow2 (-1)) (F32.pow2 (-1)) (S754_finite false 12582912 (-23))].

(** A cell the surface grazes: one unit cell of world edge 2, isolevel
    [0.125f], and a sample point just outside corner 0 on the diagonal, at
    [-9686329 * 2^-27] on each axis (about -0.0721688). *)
Definition grazeBuilder : TreeMeshBuilder := mkBuilder 1 F32.two (F32.pow2 (-3)) [].
Definition grazeField : ParametricScalarField :=
  let c := S754_finite true 9686329 (-27) in mkField [mkVec3 c c c].

(** An isolevel that is finite and above the square root of the largest
    float: [2^65]. *)
Definition hugeIsoBuilder : TreeMeshBuilder := mkBuilder 1 gridSizeCutoff (F32.pow2 65) [].

(** A sample point whose squared distance from the origin overflows:
    [(2^100, 0, 0)]. *)
Definition overflowField : ParametricScalarField :=
  mkField [mkVec3 (F32.pow2 100) F32.zero F32.zero].

(** A 1024^3 grid on which line 38 never holds: no sample point and the
    largest float as the isolevel. *)
Definition builder1024 : TreeMeshBuilder := mkBuilder 1024 gridSizeCutoff F32.max_float [].

(** A 2x2x2 grid with the same resolution and isolevel. *)
Definition builder2max : TreeMeshBuilder := mkBuilder 2 gridSizeCutoff F32.max_float [].

(* ================================================================== *)
(** ** Classes of binary32 values *)

(** A number with the sign bit clear: [+0], a positive finite value or
    [+inf]; neither NaN nor negative. *)
Definition is_distance (f : float) : bool :=
  match f with
  | S754_zero false | S754_infinity false | S754_finite false _ _ => true
  | _ => false
  end.

(** The same, or NaN. *)
Definition nonneg_or_nan (f : float) : bool :=
  match f with
  | S754_nan => true
  | _ => is_distance f
  end.

(** A zero or a finite non-zero value: neither NaN nor an infinity. *)
Definition is_finite (f : float) : bool :=
  match f with
  | S754_zero _ | S754_finite _ _ _ => true
  | _ => false
  end.

Definition is_nan (f : float) : bool :=
  match f with S754_nan => true | _ => false end.

Definition finite_vec (p : Vec3_t) : bool :=
  is_finite (x p) && is_finite (y p) && is_finite (z p).

Definition nan_vec (p : Vec3_t) : bool :=
  is_nan (x p) || is_nan (y p) || is_nan (z p).

(* ================================================================== *)
(** ** Chains of halvings *)

(** [gridSize] halved [n] times, as line 32 halves it at every level. *)
Fixpoint halve (n : nat) (gridSize : float) : float :=
  match n with
  | O => gridSize
  | S n' => halve n' (gridSize / F32.two)%f32
  end.

(** The origin of the cell reached from [(pos, gridSize)] by entering the
    first child ([i = 0] of the loop of line 46) [n] times. *)
Fixpoint firstChildPos (n : nat) (pos : Vec3_t) (gridSize : float) : Vec3_t :=
  match n with
  | O => pos
  | S n' => firstChildPos n' (childPos pos (gridSize / F32.two)%f32 (hd origin sc_vertexNormPos))
                          (gridSize / F32.two)%f32
  end.

(** On the [n]-th cell of that chain neither line 38 nor line 43 holds:
    the traversal goes one level further down. *)
Definition descends (b : TreeMeshBuilder) (field : ParametricScalarField)
           (pos : Vec3_t) (gridSize : float) (n : nat) : bool :=
  negb (pruneTest b (firstChildPos n pos gridSize) field (halve n gridSize))
  && negb (halve n gridSize =? gridSizeCutoff)%f32.

(** A grid of edge 3 with one sample point at its minimum corner. *)
Definition builder3 : TreeMeshBuilder := mkBuilder 3 gridSizeCutoff iso015 [].
Definition originField : ParametricScalarField := mkField [origin].

(* ================================================================== *)
(** ** Two runs side by side *)

(** Two worlds whose builders agree on the grid resolution and the
    isolevel (they may hold different triangles and logs). *)
Definition sameRun (w v : World) : Prop :=
  mGridResolution (this v) = mGridResolution (this w)
  /\ mIsoLevel (this v) = mIsoLevel (this w).

(** The piece of run from [w] to [w'] and the one from [v] to [v'] appended
    the same triangles and logged the same calls. *)
Definition sameDelta (w w' v v' : World) : Prop :=
  exists ts evs,
    this w' = appended (this w) ts /\ calls w' = calls w ++ evs
    /\ this v' = appended (this v) ts /\ calls v' = calls v ++ evs.

(** Line 38 can never hold on this builder: the isolevel is NaN or [+inf],
    or the grid resolution is NaN. *)
Definition unprunable (b : TreeMeshBuilder) : bool :=
  is_nan (mIsoLevel b) || is_nan (mGridResolution b)
  || same_float (mIsoLevel b) (S754_infinity false).

(** A 2x2x2 grid whose isolevel is NaN. *)
Definition builder2nan : TreeMeshBuilder := mkBuilder 2 gridSizeCutoff S754_nan [].

(* ================================================================== *)
(** ** Reading the log level by level *)

Definition eventPos (e : Event) : Vec3_t :=
  match e with Enter _ p _ | BuildCube _ p _ => p end.

(** The [treeTraversal] calls of a log that were made at level [l]. *)
Definition enteredAt (l : nat) (evs : list Event) : list Event :=
  filter (fun e => negb (isBuildCube e) && (eventLevel e =? l)%nat) evs.

(** The entries of a log on whose cell the test of line 38 does not hold. *)
Definition notPruned (b : TreeMeshBuilder) (field : ParametricScalarField)
           (evs : list Event) : list Event :=
  filter (fun e => negb (pruneTest b (eventPos e) field (eventGridSize e))) evs.

(** Every cell of the full octree below the cell [(pos, gridSize)], down
    to [depth] subdivisions: the cell itself, then the cells of its 8
    children. *)
Fixpoint octreeCells (depth : nat) (pos : Vec3_t) (gridSize : float)
  : list (Vec3_t * float) :=
  (pos, gridSize) ::
  match depth with
  | O => []
  | S d =>
    let halfGridSize := (gridSize / F32.two)%f32 in
    flat_map (fun off => octreeCells d (childPos pos halfGridSize off) halfGridSize)
             sc_vertexNormPos
  end.

(** ** Further concrete runs *)

(** A tie on a larger cell: a 2x2x2 grid, a sample point at distance
    exactly 2 from the centre [(1, 1, 1)] of the root cell, and the isolevel
    [2 - 2 * sqrt3Div2], so that the threshold of line 38 on the root is
    exactly [2.0f]. *)
Definition tieBuilder2 : TreeMeshBuilder :=
  mkBuilder 2 gridSizeCutoff (S754_finite false 8990884 (-25)) [].
Definition tieField2 : ParametricScalarField :=
  mkField [mkVec3 (F32.of_Z 3) F32.one F32.one].

(** Four sample points at squared distances 9, 5, 3 and 12 from the
    origin; the nearest is neither the first nor the last, and is not the
    nearest along the x axis alone. *)
Definition scatterField : ParametricScalarField :=
  mkField [ mkVec3 (F32.of_Z 3) F32.zero F32.zero;
            mkVec3 F32.zero F32.one F32.two;
            mkVec3 F32.one F32.one F32.one;
            mkVec3 F32.two F32.two F32.two ].

(** A sample point next to the far corner of a 3x3x3 grid, at
    [(4, 1.5, 1.5)]. *)
Definition besideField : ParametricScalarField :=
  mkField [mkVec3 (F32.of_Z 4) (S754_finite false 12582912 (-23))
                  (S754_finite false 12582912 (-23))].

(* ================================================================== *)
(** * Properties *)

(** ** binary32 facts *)

Lemma sqrt_max_float : F32.sqrt F32.max_float = S754_finite false 16777215 40.
Proof. vm_compute. reflexivity. Qed.

(** Halving a power of two of the [unsigned] range is exact. *)
Lemma half_pow2 (k : nat) :
  (k < 32)%nat ->
  (F32.pow2 (Z.of_nat (S k)) / F32.two)%f32 = F32.pow2 (Z.of_nat k).
Proof.
  intros Hk.
  do 32 (destruct k as [|k]; [vm_compute; reflexivity|]).
  lia.
Qed.

(** Among the powers of two of the [unsigned] range only [2^0] equals the
    cutoff. *)
Lemma pow2_cutoff (k : nat) :
  (k < 32)%nat ->
  (F32.pow2 (Z.of_nat k) =? gridSizeCutoff)%f32 = Nat.eqb k 0.
Proof.
  intros Hk.
  do 32 (destruct k as [|k]; [vm_compute; reflexivity|]).
  lia.
Qed.

(** [static_cast<float>] is exact on the powers of two of the [unsigned]
    range. *)
Lemma of_Z_pow2 (k : nat) :
  (k < 32)%nat ->
  F32.of_Z (2 ^ Z.of_nat k) = F32.pow2 (Z.of_nat k).
Proof.
  intros Hk.
  do 32 (destruct k as [|k]; [vm_compute; reflexivity|]).
  lia.
Qed.

Lemma compare_cont_Eq_eq (m1 m2 : positive) :
  Pos.compare_cont Eq m1 m2 = Eq -> m1 = m2.
Proof. apply Pos.compare_eq. Qed.

(** Two floats that compare equal are not ordered either way. *)
Lemma SFcompare_Eq_sym (a b : float) :
  SFcompare a b = Some Eq -> SFcompare b a = Some Eq.
Proof.
  destruct a as [sa|sa| |sa ma ea], b as [sb|sb| |sb mb eb]; simpl;
    try destruct sa; try destruct sb; simpl; try congruence.
  - destruct (Z.compare_spec ea eb) as [He|He|He]; try congruence.
    intros H. subst eb. rewrite Z.compare_refl.
    destruct (Pos.compare_cont Eq ma mb) eqn:Hm; simpl in H; try congruence.
    apply compare_cont_Eq_eq in Hm. subst mb.
    fold (Pos.compare ma ma). rewrite Pos.compare_refl. reflexivity.
  - destruct (Z.compare_spec ea eb) as [He|He|He]; try congruence.
    intros H. subst eb. rewrite Z.compare_refl.
    destruct (Pos.compare_cont Eq ma mb) eqn:Hm; simpl in H; try congruence.
    apply compare_cont_Eq_eq in Hm. subst mb.
    fold (Pos.compare ma ma). rewrite Pos.compare_refl. reflexivity.
Qed.

Lemma eqb_not_gtb (a b : float) :
  (a =? b)%f32 = true -> (a >? b)%f32 = false.
Proof.
  unfold F32.eqb, F32.gtb, F32.ltb, SFeqb, SFltb. intros H.
  destruct (SFcompare a b) as [[| |]|] eqn:Hc; try discriminate.
  rewrite (SFcompare_Eq_sym _ _ Hc). reflexivity.
Qed.

(** A float that compares equal to a finite one is that very value. *)
Lemma SFcompare_Eq_finite (a : float) (s : bool) (m : positive) (e : Z) :
  SFcompare a (S754_finite s m e) = Some Eq -> a = S754_finite s m e.
Proof.
  destruct a as [sa|sa| |sa ma ea]; simpl;
    try destruct sa; try destruct s; simpl; try congruence.
  - destruct (Z.compare_spec ea e) as [He|He|He]; try congruence.
    destruct (Pos.compare_cont Eq ma m) eqn:Hm; simpl; try congruence.
    apply compare_cont_Eq_eq in Hm. intros _. congruence.
  - destruct (Z.compare_spec ea e) as [He|He|He]; try congruence.
    destruct (Pos.compare_cont Eq ma m) eqn:Hm; simpl; try congruence.
    apply compare_cont_Eq_eq in Hm. intros _. congruence.
Qed.

(** ** [unsigned] arithmetic *)

Lemma to_unsigned_range (n : Z) : 0 <= to_unsigned n < UINT_MOD.
Proof. unfold to_unsigned, UINT_MOD. apply Z.mod_pos_bound. lia. Qed.

Lemma to_unsigned_idem (n : Z) : to_unsigned (to_unsigned n) = to_unsigned n.
Proof. unfold to_unsigned, UINT_MOD. apply Z.mod_mod. lia. Qed.

Lemma to_unsigned_small (n : Z) : 0 <= n < UINT_MOD -> to_unsigned n = n.
Proof. unfold to_unsigned. intros H. apply Z.mod_small. exact H. Qed.

Lemma uadd_to_unsigned (a b : Z) :
  uadd (to_unsigned a) (to_unsigned b) = to_unsigned (a + b).
Proof.
  unfold uadd, to_unsigned, UINT_MOD.
  rewrite <- Z.add_mod by lia. reflexivity.
Qed.

Lemma usum_app (l1 l2 : list Z) : usum (l1 ++ l2) = uadd (usum l1) (usum l2).
Proof.
  unfold usum. rewrite uadd_to_unsigned. f_equal.
  induction l1 as [|a l1 IH]; simpl; [reflexivity|]. rewrite IH. lia.
Qed.

Lemma uadd_assoc (a b c : Z) : uadd (uadd a b) c = uadd a (uadd b c).
Proof.
  unfold uadd, to_unsigned, UINT_MOD.
  rewrite Z.add_mod_idemp_l, Z.add_mod_idemp_r by lia. f_equal. lia.
Qed.

Lemma usum_range (l : list Z) : 0 <= usum l < UINT_MOD.
Proof. apply to_unsigned_range. Qed.

(** ** The monad and the loops *)

Lemma bind_inv {A B : Type} (m : M A) (k : A -> M B) (w w'' : World) (b : B) :
  bind m k w = Some (b, w'') ->
  exists a w', m w = Some (a, w') /\ k a w' = Some (b, w'').
Proof.
  unfold bind. destruct (m w) as [[a w']|] eqn:Hm; [|discriminate].
  intros H. exists a, w'. split; [reflexivity|exact H].
Qed.

(** Loop rule. *)
Lemma for_each_partial {A : Type} (I : Z -> World -> Prop)
      (l : list A) (body : A -> Z -> M Z) :
  (forall a acc w acc' w', I acc w -> body a acc w = Some (acc', w') -> I acc' w') ->
  forall acc w acc' w', I acc w -> for_each l body acc w = Some (acc', w') -> I acc' w'.
Proof.
  induction l as [|a l IH]; intros Hbody acc w acc' w' HI Hrun; simpl in Hrun.
  - inversion Hrun; subst. exact HI.
  - apply bind_inv in Hrun. destruct Hrun as (acc1 & w1 & Hstep & Hrest).
    eapply IH; [exact Hbody| |exact Hrest].
    eapply Hbody; [exact HI|exact Hstep].
Qed.

(** ** [emitTriangle] and [buildCube] *)

Lemma appended_nil (b : TreeMeshBuilder) : appended b [] = b.
Proof. destruct b. unfold appended. simpl. rewrite app_nil_r. reflexivity. Qed.

Lemma appended_appended (b : TreeMeshBuilder) (ts us : list Triangle_t) :
  appended (appended b ts) us = appended b (ts ++ us).
Proof. unfold appended. simpl. rewrite app_assoc. reflexivity. Qed.

Lemma push_back_appended (b : TreeMeshBuilder) (t : Triangle_t) :
  push_back b t = appended b [t].
Proof. reflexivity. Qed.

Lemma emitAll_run (ts : list Triangle_t) (w : World) :
  emitAll ts w = Some (tt, mkWorld (appended (this w) ts) (calls w)).
Proof.
  revert w. induction ts as [|t ts IH]; intros w; simpl.
  - rewrite appended_nil. destruct w. reflexivity.
  - unfold bind, emitTriangle. rewrite IH. simpl.
    rewrite push_back_appended, appended_appended. reflexivity.
Qed.

Lemma buildCube_run (cube : CubeBuilder) (pos : Vec3_t)
      (field : ParametricScalarField) (w : World) :
  buildCube cube pos field w =
  Some (to_unsigned (cubeCount cube (mGridResolution (this w)) (mIsoLevel (this w)) pos field),
        mkWorld (appended (this w)
                          (cubeTriangles cube (mGridResolution (this w)) (mIsoLevel (this w)) pos field))
                (calls w)).
Proof.
  unfold buildCube, bind, getThis, ret. rewrite emitAll_run. reflexivity.
Qed.

(** ** One step of [treeTraversal] *)

Section Step.

Variable cube : CubeBuilder.
Variable field : ParametricScalarField.

(** One call, unfolded along its three branches. *)
Lemma treeTraversal_S (fuel level : nat) (pos : Vec3_t) (gridSize : float) (w : World) :
  treeTraversal cube (S fuel) level pos field gridSize w
  = if pruneTest (this w) pos field gridSize then
      Some (0, entered level pos gridSize w)
    else if (gridSize =? gridSizeCutoff)%f32 then
      (record (BuildCube level pos gridSize) ;;
       n <- buildCube cube pos field ;;
       ret (uadd 0 n)) (entered level pos gridSize w)
    else
      for_each sc_vertexNormPos
        (fun off totalTriangles =>
           n <- treeTraversal cube fuel (S level)
                  (childPos pos (gridSize / F32.two)%f32 off) field
                  (gridSize / F32.two)%f32 ;;
           ret (uadd totalTriangles n))
        0 (entered level pos gridSize w).
Proof.
  change (treeTraversal cube (S fuel) level pos field gridSize w)
    with ((if pruneTest (this w) pos field gridSize then ret 0
           else if (gridSize =? gridSizeCutoff)%f32 then
             record (BuildCube level pos gridSize) ;;
             n <- buildCube cube pos field ;;
             ret (uadd 0 n)
           else
             for_each sc_vertexNormPos
               (fun off totalTriangles =>
                  n <- treeTraversal cube fuel (S level)
                         (childPos pos (gridSize / F32.two)%f32 off) field
                         (gridSize / F32.two)%f32 ;;
                  ret (uadd totalTriangles n))
               0) (entered level pos gridSize w)).
  destruct (pruneTest (this w) pos field gridSize); [reflexivity|].
  destruct (gridSize =? gridSizeCutoff)%f32; reflexivity.
Qed.

(** Line 38 holds: the call returns 0 at once. *)
Lemma treeTraversal_prune (fuel level : nat) (pos : Vec3_t) (gridSize : float) (w : World) :
  pruneTest (this w) pos field gridSize = true ->
  treeTraversal cube (S fuel) level pos field gridSize w
  = Some (0, entered level pos gridSize w).
Proof. intros Hp. rewrite treeTraversal_S, Hp. reflexivity. Qed.

(** Line 38 fails and the cell is a unit cell: one [buildCube]. *)
Lemma treeTraversal_leaf (fuel level : nat) (pos : Vec3_t) (gridSize : float) (w : World) :
  pruneTest (this w) pos field gridSize = false ->
  (gridSize =? gridSizeCutoff)%f32 = true ->
  treeTraversal cube (S fuel) level pos field gridSize w
  = Some (to_unsigned (cubeCount cube (mGridResolution (this w)) (mIsoLevel (this w)) pos field),
          mkWorld (appended (this w)
                     (cubeTriangles cube (mGridResolution (this w)) (mIsoLevel (this w)) pos field))
                  (calls w ++ [Enter level pos gridSize; BuildCube level pos gridSize])).
Proof.
  intros Hp Hc. rewrite treeTraversal_S, Hp, Hc.
  unfold bind, record, entered. rewrite buildCube_run. simpl.
  unfold ret, uadd. rewrite Z.add_0_l, to_unsigned_idem.
  rewrite <- (app_assoc (calls w) [Enter level pos gridSize]
                        [BuildCube level pos gridSize]).
  reflexivity.
Qed.

(** Line 38 fails and the cell is larger: the loop over the 8 children. *)
Lemma treeTraversal_split (fuel level : nat) (pos : Vec3_t) (gridSize : float) (w : World) :
  pruneTest (this w) pos field gridSize = false ->
  (gridSize =? gridSizeCutoff)%f32 = false ->
  treeTraversal cube (S fuel) level pos field gridSize w
  = for_each sc_vertexNormPos
      (fun off totalTriangles =>
         n <- treeTraversal cube fuel (S level)
                (childPos pos (gridSize / F32.two)%f32 off) field (gridSize / F32.two)%f32 ;;
         ret (uadd totalTriangles n))
      0 (entered level pos gridSize w).
Proof. intros Hp Hc. rewrite treeTraversal_S, Hp, Hc. reflexivity. Qed.

End Step.

(** ** The effect of a traversal *)

Lemma builtCells_app (e1 e2 : list Event) :
  builtCells (e1 ++ e2) = builtCells e1 ++ builtCells e2.
Proof. unfold builtCells. apply flat_map_app. Qed.

Lemma emittedBy_app (cube : CubeBuilder) (b : TreeMeshBuilder)
      (field : ParametricScalarField) (c1 c2 : list Vec3_t) :
  emittedBy cube b field (c1 ++ c2) = emittedBy cube b field c1 ++ emittedBy cube b field c2.
Proof. unfold emittedBy. apply flat_map_app. Qed.

Lemma returnedBy_app (cube : CubeBuilder) (b : TreeMeshBuilder)
      (field : ParametricScalarField) (c1 c2 : list Vec3_t) :
  returnedBy cube b field (c1 ++ c2) = returnedBy cube b field c1 ++ returnedBy cube b field c2.
Proof. unfold returnedBy. apply map_app. Qed.

Section Effect.

Variable cube : CubeBuilder.
Variable field : ParametricScalarField.

Lemma extends_nil (w : World) (evs : list Event) :
  builtCells evs = [] ->
  extends cube field w (mkWorld (this w) (calls w ++ evs)) 0 evs.
Proof.
  intros Hb. unfold extends. rewrite Hb. simpl.
  rewrite appended_nil. repeat split; reflexivity.
Qed.

Lemma extends_trans (w w1 w2 : World) (n1 n2 : Z) (e1 e2 : list Event) :
  extends cube field w w1 n1 e1 ->
  extends cube field w1 w2 n2 e2 ->
  extends cube field w w2 (uadd n1 n2) (e1 ++ e2).
Proof.
  intros (Hc1 & Ht1 & Hn1) (Hc2 & Ht2 & Hn2).
  assert (He : emittedBy cube (this w1) field (builtCells e2)
               = emittedBy cube (this w) field (builtCells e2))
    by (rewrite Ht1; reflexivity).
  assert (Hr : returnedBy cube (this w1) field (builtCells e2)
               = returnedBy cube (this w) field (builtCells e2))
    by (rewrite Ht1; reflexivity).
  unfold extends.
  rewrite builtCells_app, emittedBy_app, returnedBy_app, usum_app.
  repeat split.
  - rewrite Hc2, Hc1, app_assoc. reflexivity.
  - rewrite Ht2, He, Ht1, appended_appended. reflexivity.
  - rewrite Hn1, Hn2, Hr. reflexivity.
Qed.

(** Whenever a call of [treeTraversal] returns, the world it leaves is the
    one it found extended by its own log; the count is the [unsigned] sum
    of the counts of its [buildCube] calls. *)
Lemma treeTraversal_effect (fuel level : nat) :
  forall (pos : Vec3_t) (gridSize : float) (w w' : World) (n : Z),
  treeTraversal cube fuel level pos field gridSize w = Some (n, w') ->
  exists evs, extends cube field w w' n evs.
Proof.
  revert level.
  induction fuel as [|fuel IH]; intros level pos gridSize w w' n Hrun.
  - discriminate Hrun.
  - destruct (pruneTest (this w) pos field gridSize) eqn:Hp.
    + rewrite (treeTraversal_prune _ _ _ _ _ _ _ Hp) in Hrun.
      inversion Hrun; subst n w'.
      exists [Enter level pos gridSize]. apply extends_nil. reflexivity.
    + destruct (gridSize =? gridSizeCutoff)%f32 eqn:Hc.
      * rewrite (treeTraversal_leaf _ _ _ _ _ _ _ Hp Hc) in Hrun.
        inversion Hrun; subst n w'.
        exists [Enter level pos gridSize; BuildCube level pos gridSize].
        unfold extends, emittedBy, returnedBy, usum. simpl.
        rewrite app_nil_r, Z.add_0_r, to_unsigned_idem.
        repeat split; reflexivity.
      * rewrite (treeTraversal_split _ _ _ _ _ _ _ Hp Hc) in Hrun.
        set (I := fun (acc : Z) (wc : World) =>
                    exists evs, extends cube field w wc acc
                                        (Enter level pos gridSize :: evs)).
        assert (HI : I n w').
        { eapply (for_each_partial I); [| |exact Hrun].
          - intros off acc wc acc' wc' (evs & Hext) Hbody.
            apply bind_inv in Hbody. destruct Hbody as (m & w1 & Hchild & Hret).
            inversion Hret; subst acc' wc'.
            destruct (IH _ _ _ _ _ _ Hchild) as (evs' & Hext').
            exists (evs ++ evs').
            change (Enter level pos gridSize :: evs ++ evs')
              with ((Enter level pos gridSize :: evs) ++ evs').
            eapply extends_trans; eassumption.
          - exists []. apply (extends_nil w [Enter level pos gridSize]). reflexivity. }
        destruct HI as (evs & Hext). eauto.
Qed.

End Effect.

(** ** Traversal of a power-of-two cell *)

Lemma pruneTest_appended (b : TreeMeshBuilder) (ts : list Triangle_t)
      (pos : Vec3_t) (field : ParametricScalarField) (gridSize : float) :
  pruneTest (appended b ts) pos field gridSize = pruneTest b pos field gridSize.
Proof. reflexivity. Qed.

Lemma octreeTrace_eq (b : TreeMeshBuilder) (field : ParametricScalarField)
      (depth level : nat) (pos : Vec3_t) (gridSize : float) :
  octreeTrace b field depth level pos gridSize
  = Enter level pos gridSize ::
    if pruneTest b pos field gridSize then []
    else match depth with
         | O => [BuildCube level pos gridSize]
         | S d =>
           flat_map (fun off => octreeTrace b field d (S level)
                                  (childPos pos (gridSize / F32.two)%f32 off)
                                  (gridSize / F32.two)%f32)
                    sc_vertexNormPos
         end.
Proof. destruct depth; reflexivity. Qed.

Lemma octreeTrace_appended (b : TreeMeshBuilder) (ts : list Triangle_t)
      (field : ParametricScalarField) (depth : nat) :
  forall (level : nat) (pos : Vec3_t) (gridSize : float),
  octreeTrace (appended b ts) field depth level pos gridSize
  = octreeTrace b field depth level pos gridSize.
Proof.
  induction depth as [|d IH]; intros level pos gridSize;
    rewrite !octreeTrace_eq, pruneTest_appended; [reflexivity|].
  destruct (pruneTest b pos field gridSize); [reflexivity|].
  f_equal. apply flat_map_ext. intros off. apply IH.
Qed.

Section PowerOfTwo.

Variable cube : CubeBuilder.
Variable field : ParametricScalarField.

Lemma extends_refl (w : World) : extends cube field w w 0 [].
Proof.
  unfold extends. simpl. rewrite app_nil_r, appended_nil.
  repeat split; reflexivity.
Qed.

(** The loop of lines 46-52 over children whose calls each return and
    extend the world by a known log. *)
Lemma for_each_children {A : Type} (b0 : TreeMeshBuilder)
      (child : A -> M Z) (tr : A -> list Event) (l : list A) :
  (forall a wc ts, In a l -> this wc = appended b0 ts ->
     exists n w', child a wc = Some (n, w') /\ extends cube field wc w' n (tr a)) ->
  forall acc wc ts, 0 <= acc < UINT_MOD -> this wc = appended b0 ts ->
  exists n w',
    for_each l (fun a acc => n <- child a ;; ret (uadd acc n)) acc wc
    = Some (uadd acc n, w')
    /\ extends cube field wc w' n (flat_map tr l).
Proof.
  induction l as [|a l IH]; intros Hchild acc wc ts Hacc Hthis; simpl.
  - exists 0, wc. split; [|apply extends_refl].
    unfold ret, uadd. rewrite Z.add_0_r, to_unsigned_small by exact Hacc. reflexivity.
  - destruct (Hchild a wc ts (or_introl eq_refl) Hthis) as (n1 & w1 & Hrun1 & Hext1).
    assert (Hthis1 : this w1 = appended b0 (ts ++ emittedBy cube (this wc) field (builtCells (tr a)))).
    { destruct Hext1 as (_ & Ht & _). rewrite Ht, Hthis, appended_appended. reflexivity. }
    destruct (IH (fun b wc' ts' Hin => Hchild b wc' ts' (or_intror Hin))
                 (uadd acc n1) w1 _ (to_unsigned_range _) Hthis1)
      as (n2 & w2 & Hrun2 & Hext2).
    exists (uadd n1 n2), w2. split.
    + unfold bind at 1. unfold bind at 1. rewrite Hrun1. unfold ret at 1.
      rewrite Hrun2, uadd_assoc. reflexivity.
    + eapply extends_trans; eassumption.
Qed.

(** A cell [2^k] units wide, [k < 32], is traversed to the end with any
    fuel above [k], and the log it leaves is [octreeTrace]. *)
Lemma treeTraversal_pow2 (k : nat) :
  forall (fuel level : nat) (pos : Vec3_t) (w : World),
  (k < 32)%nat -> (k < fuel)%nat ->
  exists n w',
    treeTraversal cube fuel level pos field (F32.pow2 (Z.of_nat k)) w = Some (n, w')
    /\ extends cube field w w' n
               (octreeTrace (this w) field k level pos (F32.pow2 (Z.of_nat k))).
Proof.
  induction k as [|k IH]; intros fuel level pos w Hk Hfuel;
    (destruct fuel as [|fuel]; [lia|]);
    [ destruct (pruneTest (this w) pos field (F32.pow2 (Z.of_nat 0))) eqn:Hp
    | destruct (pruneTest (this w) pos field (F32.pow2 (Z.of_nat (S k)))) eqn:Hp ].
  - rewrite (treeTraversal_prune _ _ _ _ _ _ _ Hp).
    do 2 eexists. split; [reflexivity|].
    rewrite octreeTrace_eq, Hp. apply extends_nil. reflexivity.
  - assert (Hc := pow2_cutoff 0 Hk). simpl Nat.eqb in Hc.
    rewrite (treeTraversal_leaf _ _ _ _ _ _ _ Hp Hc).
    do 2 eexists. split; [reflexivity|].
    rewrite octreeTrace_eq, Hp.
    unfold extends, emittedBy, returnedBy, usum. simpl.
    rewrite app_nil_r, Z.add_0_r, to_unsigned_idem.
    repeat split; reflexivity.
  - rewrite (treeTraversal_prune _ _ _ _ _ _ _ Hp).
    do 2 eexists. split; [reflexivity|].
    rewrite octreeTrace_eq, Hp. apply extends_nil. reflexivity.
  - assert (Hc := pow2_cutoff (S k) Hk). simpl Nat.eqb in Hc.
    rewrite (treeTraversal_split _ _ _ _ _ _ _ Hp Hc).
    rewrite octreeTrace_eq, Hp.
    rewrite (half_pow2 k) by lia.
    destruct (for_each_children (this w)
                (fun off => treeTraversal cube fuel (S level)
                              (childPos pos (F32.pow2 (Z.of_nat k)) off) field
                              (F32.pow2 (Z.of_nat k)))
                (fun off => octreeTrace (this w) field k (S level)
                              (childPos pos (F32.pow2 (Z.of_nat k)) off)
                              (F32.pow2 (Z.of_nat k)))
                sc_vertexNormPos) with (acc := 0)
                (wc := entered level pos (F32.pow2 (Z.of_nat (S k))) w) (ts := @nil Triangle_t)
      as (n & w' & Hrun & Hext).
    + intros off wc ts _ Hthis.
      destruct (IH fuel (S level) (childPos pos (F32.pow2 (Z.of_nat k)) off) wc)
        as (n & w' & Hrun & Hext); [lia|lia|].
      exists n, w'. split; [exact Hrun|].
      rewrite Hthis, octreeTrace_appended in Hext. exact Hext.
    + unfold UINT_MOD. lia.
    + simpl. rewrite appended_nil. reflexivity.
    + exists (uadd 0 n), w'. split; [exact Hrun|].
      apply (extends_trans cube field w (entered level pos (F32.pow2 (Z.of_nat (S k))) w) w'
                           0 n [Enter level pos (F32.pow2 (Z.of_nat (S k)))]).
      * apply extends_nil. reflexivity.
      * exact Hext.
Qed.

End PowerOfTwo.

(** ** The shape of the log *)

Lemma Forall_flat_map {A B : Type} (P : B -> Prop) (f : A -> list B) (l : list A) :
  (forall a, In a l -> Forall P (f a)) -> Forall P (flat_map f l).
Proof.
  induction l as [|a l IH]; intros H; simpl; [constructor|].
  apply Forall_app. split.
  - apply H. left. reflexivity.
  - apply IH. intros b Hb. apply H. right. exact Hb.
Qed.

Lemma octreeTrace_wellPlaced (b : TreeMeshBuilder) (field : ParametricScalarField) (k : nat) :
  forall (level : nat) (pos : Vec3_t),
  (k < 32)%nat ->
  Forall (wellPlaced level k) (octreeTrace b field k level pos (F32.pow2 (Z.of_nat k))).
Proof.
  induction k as [|k IH]; intros level pos Hk; rewrite octreeTrace_eq.
  - assert (He : wellPlaced level 0 (Enter level pos (F32.pow2 (Z.of_nat 0)))).
    { unfold wellPlaced. simpl. repeat split; try lia; try discriminate.
      replace (level + 0 - level)%nat with 0%nat by lia. reflexivity. }
    constructor; [exact He|].
    destruct (pruneTest b pos field _); constructor; [|constructor].
    unfold wellPlaced. simpl. repeat split; try lia.
    replace (level + 0 - level)%nat with 0%nat by lia. reflexivity.
  - constructor.
    + unfold wellPlaced. simpl. repeat split; try lia; try discriminate.
      replace (level + S k - level)%nat with (S k) by lia. reflexivity.
    + destruct (pruneTest b pos field _); [constructor|].
      rewrite (half_pow2 k) by lia.
      apply Forall_flat_map. intros off _.
      eapply Forall_impl; [|apply (IH (S level)); lia].
      intros e (Hl & Hg & Hb). unfold wellPlaced.
      replace (level + S k - eventLevel e)%nat with (S level + k - eventLevel e)%nat by lia.
      split; [lia|]. split; [exact Hg|].
      intros Hbc. destruct (Hb Hbc) as (H1 & H2). split; [lia|exact H2].
Qed.

Lemma maxLevel_le (evs : list Event) (m : nat) :
  Forall (fun e => (eventLevel e <= m)%nat) evs -> (maxLevel evs <= m)%nat.
Proof.
  induction 1 as [|e evs He _ IH]; simpl; [lia|].
  apply Nat.max_lub; assumption.
Qed.

Lemma maxLevel_ge (evs : list Event) (e : Event) :
  In e evs -> (eventLevel e <= maxLevel evs)%nat.
Proof.
  induction evs as [|a evs IH]; intros Hin; [contradiction|].
  simpl. destruct Hin as [->|Hin]; [apply Nat.le_max_l|].
  etransitivity; [apply IH; exact Hin|apply Nat.le_max_r].
Qed.

(** ** Reached and skipped leaves *)

Lemma Permutation_flat_map_split {A B : Type} (f g h : A -> list B) (l : list A) :
  (forall a, In a l -> Permutation (f a ++ g a) (h a)) ->
  Permutation (flat_map f l ++ flat_map g l) (flat_map h l).
Proof.
  induction l as [|a l IH]; intros H; simpl; [constructor|].
  rewrite <- app_assoc.
  transitivity ((f a ++ g a) ++ flat_map f l ++ flat_map g l).
  - rewrite <- app_assoc. apply Permutation_app_head.
    rewrite !app_assoc. apply Permutation_app_tail. apply Permutation_app_comm.
  - apply Permutation_app.
    + apply H. left. reflexivity.
    + apply IH. intros b Hb. apply H. right. exact Hb.
Qed.

Lemma builtCells_flat_map {A : Type} (f : A -> list Event) (l : list A) :
  builtCells (flat_map f l) = flat_map (fun a => builtCells (f a)) l.
Proof.
  induction l as [|a l IH]; simpl; [reflexivity|].
  rewrite builtCells_app, IH. reflexivity.
Qed.

(** Every unit leaf cell is either handed to [buildCube] or enclosed by a
    pruned cell, and never both. *)
Lemma reached_or_pruned (b : TreeMeshBuilder) (field : ParametricScalarField) (depth : nat) :
  forall (level : nat) (pos : Vec3_t) (gridSize : float),
  Permutation (builtCells (octreeTrace b field depth level pos gridSize)
               ++ prunedLeaves b field depth pos gridSize)
              (leafCells depth pos gridSize).
Proof.
  induction depth as [|d IH]; intros level pos gridSize; rewrite octreeTrace_eq.
  - simpl. destruct (pruneTest b pos field gridSize); simpl; apply Permutation_refl.
  - simpl prunedLeaves. destruct (pruneTest b pos field gridSize).
    + simpl. apply Permutation_refl.
    + change (builtCells (Enter level pos gridSize :: ?l)) with (builtCells l).
      rewrite builtCells_flat_map.
      apply (Permutation_flat_map_split
               (fun off => builtCells (octreeTrace b field d (S level)
                             (childPos pos (gridSize / F32.two)%f32 off) (gridSize / F32.two)%f32))
               (fun off => prunedLeaves b field d
                             (childPos pos (gridSize / F32.two)%f32 off) (gridSize / F32.two)%f32)
               (fun off => leafCells d
                             (childPos pos (gridSize / F32.two)%f32 off) (gridSize / F32.two)%f32)).
      intros off _. apply IH.
Qed.

Lemma Forall_of_forallb {A : Type} (P : A -> Prop) (f : A -> bool) (l : list A) :
  (forall a, f a = true -> P a) -> forallb f l = true -> Forall P l.
Proof.
  intros Hf Hall. apply Forall_forall. intros a Hin. apply Hf.
  rewrite forallb_forall in Hall. apply Hall. exact Hin.
Qed.

Lemma usum_Permutation (l1 l2 : list Z) : Permutation l1 l2 -> usum l1 = usum l2.
Proof.
  intros H. unfold usum. f_equal.
  induction H; simpl; lia.
Qed.

Lemma usum_zero (l : list Z) : Forall (fun n => n = 0) l -> usum l = 0.
Proof.
  intros H. unfold usum.
  replace (fold_right Z.add 0 l) with 0; [reflexivity|].
  induction H as [|n l Hn _ IH]; simpl; lia.
Qed.

Lemma leafCells_S (d : nat) (pos : Vec3_t) (gridSize : float) :
  leafCells (S d) pos gridSize
  = flat_map (fun off => leafCells d (childPos pos (gridSize / F32.two)%f32 off)
                                   (gridSize / F32.two)%f32)
             sc_vertexNormPos.
Proof. reflexivity. Qed.

(** The full octree below a cell has [8^depth] unit leaves. *)
Lemma leafCells_length (depth : nat) :
  forall (pos : Vec3_t) (gridSize : float),
  Z.of_nat (length (leafCells depth pos gridSize)) = 8 ^ Z.of_nat depth.
Proof.
  induction depth as [|d IH]; intros pos gridSize; [reflexivity|].
  rewrite Nat2Z.inj_succ, Z.pow_succ_r by lia.
  rewrite leafCells_S. unfold sc_vertexNormPos. simpl flat_map.
  rewrite !length_app, !Nat2Z.inj_add, !IH. simpl length. lia.
Qed.

(** Where line 38 holds on no cell, every leaf is reached. *)
Lemma octreeTrace_no_prune (b : TreeMeshBuilder) (field : ParametricScalarField) (k : nat) :
  (k < 32)%nat ->
  (forall (j : nat) (pos : Vec3_t), (j <= k)%nat ->
     pruneTest b pos field (F32.pow2 (Z.of_nat j)) = false) ->
  forall (level : nat) (pos : Vec3_t),
  builtCells (octreeTrace b field k level pos (F32.pow2 (Z.of_nat k)))
  = leafCells k pos (F32.pow2 (Z.of_nat k)).
Proof.
  induction k as [|k IH]; intros Hk Hnp level pos; rewrite octreeTrace_eq, Hnp by lia.
  - reflexivity.
  - change (builtCells (Enter level pos ?g :: ?l)) with (builtCells l).
    rewrite builtCells_flat_map, leafCells_S.
    apply flat_map_ext. intros off.
    rewrite (half_pow2 k) by lia. apply IH; [lia|].
    intros j p Hj. apply Hnp. lia.
Qed.

(** On grids of edge 1, 2, 4 and 8 the leaves of the octree are the unit
    cells of the grid, each once. *)
Lemma leafCells_are_grid_cells :
  forallb (fun k => lists_once (leafCells k origin (F32.pow2 (Z.of_nat k)))
                               (gridCells (2 ^ k)))
          [0%nat; 1%nat; 2%nat; 3%nat] = true.
Proof. vm_compute. reflexivity. Qed.

(* ================================================================== *)
(** * The claims *)

(** The floats of the concrete runs are well-formed binary32 values. *)
Lemma concrete_floats_valid :
  forallb F32.valid
    [ iso015; sqrt3Div2; gridSizeCutoff; F32.two; F32.max_float;
      mIsoLevel tieBuilder; tenth; F32.pow2 (-1); F32.pow2 (-2); F32.pow2 (-3);
      F32.pow2 3; F32.pow2 65; F32.pow2 100;
      S754_finite false 12582912 (-23); S754_finite true 9686329 (-27) ] = true.
Proof. vm_compute. reflexivity. Qed.

(** ** The triangle sink *)

(** C9. Every call of [emitTriangle] returns, appends exactly the given
    triangle at the end of [mTriangles], makes the buffer one longer, keeps
    every triangle stored before at its index, and changes neither the other
    members of the builder nor anything else of the run. *)
Theorem emitTriangle_appends_one (triangle : Triangle_t) (w : World) :
  exists w',
    emitTriangle triangle w = Some (tt, w')
    /\ mTriangles (this w') = mTriangles (this w) ++ [triangle]
    /\ length (mTriangles (this w')) = S (length (mTriangles (this w)))
    /\ (forall i t, nth_error (mTriangles (this w)) i = Some t ->
                    nth_error (mTriangles (this w')) i = Some t)
    /\ nth_error (mTriangles (this w')) (length (mTriangles (this w))) = Some triangle
    /\ mGridSize (this w') = mGridSize (this w)
    /\ mGridResolution (this w') = mGridResolution (this w)
    /\ mIsoLevel (this w') = mIsoLevel (this w)
    /\ calls w' = calls w.
Proof.
  eexists. split; [reflexivity|]. simpl.
  split; [reflexivity|].
  split; [rewrite length_app; simpl; lia|].
  split.
  - intros i t Hi. rewrite nth_error_app1; [exact Hi|].
    apply nth_error_Some. congruence.
  - split; [|repeat split; reflexivity].
    rewrite nth_error_app2 by lia. rewrite Nat.sub_diag. reflexivity.
Qed.

(** ** The field evaluator on an empty point set *)

Lemma evaluateFieldAt_empty (pos : Vec3_t) :
  evaluateFieldAt pos emptyField = F32.sqrt F32.max_float.
Proof. reflexivity. Qed.

(** C4, as stated, fails: on the empty point set the evaluator does not
    return the largest float, and what it returns does not exceed the finite
    isolevel [2^65]. *)
Lemma empty_field_value_is_not_max :
  evaluateFieldAt origin emptyField <> F32.max_float
  /\ (evaluateFieldAt origin emptyField >? F32.pow2 65)%f32 = false.
Proof.
  rewrite evaluateFieldAt_empty, sqrt_max_float.
  split; [discriminate|reflexivity].
Qed.

(** C4, amended. For every position, on the empty point set
    [evaluateFieldAt] returns the square root of the largest float,
    [(2^24 - 1) * 2^40] (about 1.8447e19): the loop does not run and the
    final [sqrt] is applied to [numeric_limits<float>::max()].  The value is
    below the largest float and exceeds an isolevel exactly when the
    isolevel is below it. *)
Theorem empty_field_value (pos : Vec3_t) :
  evaluateFieldAt pos emptyField = F32.sqrt F32.max_float
  /\ evaluateFieldAt pos emptyField = S754_finite false 16777215 40
  /\ (evaluateFieldAt pos emptyField <? F32.max_float)%f32 = true
  /\ forall iso : float,
       (evaluateFieldAt pos emptyField >? iso)%f32
       = (iso <? S754_finite false 16777215 40)%f32.
Proof.
  rewrite evaluateFieldAt_empty, sqrt_max_float.
  repeat split; reflexivity.
Qed.

(** ** Pruning *)

(** C1. If the field value at the centre of the cell is strictly greater
    than [mIsoLevel + sqrt3Div2 * edgeSize], the call returns 0 with any
    fuel, calls [buildCube] not at all and leaves the builder, hence the
    triangle buffer, as it was: the log gains the entry of this call only. *)
Theorem prune_returns_zero (cube : CubeBuilder) (field : ParametricScalarField)
        (fuel level : nat) (pos : Vec3_t) (gridSize : float) (w : World) :
  (evaluateFieldAt (cubeCenter3D (this w) pos gridSize) field
   >? mIsoLevel (this w) + sqrt3Div2 * (gridSize * mGridResolution (this w)))%f32 = true ->
  exists w',
    treeTraversal cube (S fuel) level pos field gridSize w = Some (0, w')
    /\ this w' = this w
    /\ getTrianglesArray (this w') = getTrianglesArray (this w)
    /\ calls w' = calls w ++ [Enter level pos gridSize]
    /\ buildCubeCalls (calls w') = buildCubeCalls (calls w).
Proof.
  intros Hgt.
  exists (entered level pos gridSize w).
  split; [apply treeTraversal_prune; exact Hgt|].
  unfold entered, buildCubeCalls. simpl.
  repeat split; try reflexivity.
  rewrite filter_app. simpl. apply app_nil_r.
Qed.

Lemma prune_returns_zero_witness :
  exists w',
    treeTraversal crossingCube 1 0 origin farField (F32.of_Z 4) (mkWorld builder4 [])
    = Some (0, w')
    /\ this w' = builder4
    /\ getTrianglesArray (this w') = []
    /\ calls w' = [Enter 0 origin (F32.of_Z 4)]
    /\ buildCubeCalls (calls w') = [].
Proof.
  apply (prune_returns_zero crossingCube farField 0 0 origin (F32.of_Z 4)
                            (mkWorld builder4 [])).
  vm_compute. reflexivity.
Defined.

(** ** What a returning call has logged *)

(** A call that returns has logged itself first. *)
Lemma treeTraversal_logs_entry (cube : CubeBuilder) (field : ParametricScalarField)
      (fuel level : nat) (pos : Vec3_t) (gridSize : float) (w w' : World) (n : Z) :
  treeTraversal cube fuel level pos field gridSize w = Some (n, w') ->
  exists evs, calls w' = calls w ++ Enter level pos gridSize :: evs.
Proof.
  destruct fuel as [|fuel]; [discriminate|]. intros Hrun.
  destruct (pruneTest (this w) pos field gridSize) eqn:Hp.
  - rewrite (treeTraversal_prune _ _ _ _ _ _ _ Hp) in Hrun. inversion Hrun; subst.
    exists []. reflexivity.
  - destruct (gridSize =? gridSizeCutoff)%f32 eqn:Hc.
    + rewrite (treeTraversal_leaf _ _ _ _ _ _ _ Hp Hc) in Hrun. inversion Hrun; subst.
      exists [BuildCube level pos gridSize]. reflexivity.
    + rewrite (treeTraversal_split _ _ _ _ _ _ _ Hp Hc) in Hrun.
      eapply (for_each_partial
                (fun _ wc => exists evs, calls wc = calls w ++ Enter level pos gridSize :: evs));
        [| |exact Hrun].
      * intros off acc wc acc' wc' (evs & Hcalls) Hbody.
        apply bind_inv in Hbody. destruct Hbody as (m & w1 & Hchild & Hret).
        inversion Hret; subst acc' wc'.
        destruct (treeTraversal_effect _ _ _ _ _ _ _ _ _ Hchild) as (evs' & Hc' & _).
        exists (evs ++ evs'). rewrite Hc', Hcalls, <- app_assoc. reflexivity.
      * exists []. reflexivity.
Qed.

(** The loop of lines 46-52, when it comes to its end, has entered every
    child it was given. *)
Lemma for_each_enters (cube : CubeBuilder) (field : ParametricScalarField)
      (fuel level : nat) (pos : Vec3_t) (half : float) (l : list Vec3_t) :
  forall (acc : Z) (wc : World) (acc' : Z) (wc' : World),
  for_each l (fun off totalTriangles =>
                n <- treeTraversal cube fuel level (childPos pos half off) field half ;;
                ret (uadd totalTriangles n)) acc wc = Some (acc', wc') ->
  exists evs,
    calls wc' = calls wc ++ evs
    /\ forall off, In off l -> In (Enter level (childPos pos half off) half) evs.
Proof.
  induction l as [|a l IH]; intros acc wc acc' wc' Hrun; simpl in Hrun.
  - inversion Hrun; subst. exists []. split; [symmetry; apply app_nil_r|]. intros off [].
  - apply bind_inv in Hrun. destruct Hrun as (acc1 & w1 & Hstep & Hrest).
    apply bind_inv in Hstep. destruct Hstep as (m & w2 & Hchild & Hret).
    inversion Hret; subst acc1 w1.
    destruct (treeTraversal_logs_entry _ _ _ _ _ _ _ _ _ Hchild) as (evs1 & Hc1).
    destruct (IH _ _ _ _ Hrest) as (evs2 & Hc2 & Hall).
    exists ((Enter level (childPos pos half a) half :: evs1) ++ evs2).
    split; [rewrite Hc2, Hc1, <- app_assoc; reflexivity|].
    intros off [<-|Hin].
    + left. reflexivity.
    + apply in_or_app. right. apply Hall. exact Hin.
Qed.



(** ** The orchestrator *)

(** [marchCubes] is the traversal of the root cell: origin
    [sc_vertexNormPos[0]], edge [mGridSize] converted to [float]. *)
Lemma marchCubes_run (cube : CubeBuilder) (fuel : nat)
      (field : ParametricScalarField) (w : World) :
  marchCubes cube fuel field w
  = treeTraversal cube fuel 0 origin field (F32.of_Z (mGridSize (this w))) w.
Proof.
  unfold marchCubes, bind, getThis, ret.
  change (nth 0 sc_vertexNormPos _) with origin.
  destruct (treeTraversal cube fuel 0 origin field _ w) as [[n w']|]; reflexivity.
Qed.

Lemma buildCubeCalls_app (e1 e2 : list Event) :
  buildCubeCalls (e1 ++ e2) = buildCubeCalls e1 ++ buildCubeCalls e2.
Proof. apply filter_app. Qed.

(** C5, as stated, fails: with no sample point, one unit cell and the
    finite isolevel [2^65], line 38 does not hold at the root and
    [buildCube] is called once, whatever the Cube Builder. *)
Lemma empty_field_huge_isolevel_builds :
  F32.valid (mIsoLevel hugeIsoBuilder) = true
  /\ pruneTest hugeIsoBuilder origin emptyField (F32.of_Z (mGridSize hugeIsoBuilder)) = false
  /\ forall cube : CubeBuilder,
       exists n w',
         marchCubes cube 1 emptyField (mkWorld hugeIsoBuilder []) = Some (n, w')
         /\ buildCubeCalls (calls w') = [BuildCube 0 origin gridSizeCutoff].
Proof.
  split; [vm_compute; reflexivity|].
  split; [vm_compute; reflexivity|].
  intros cube. rewrite marchCubes_run.
  change (F32.of_Z (mGridSize (this (mkWorld hugeIsoBuilder [])))) with gridSizeCutoff.
  rewrite treeTraversal_leaf; [|vm_compute; reflexivity|reflexivity].
  do 2 eexists. split; reflexivity.
Qed.

(** C5, amended. On an empty point set, for every grid edge size, grid
    resolution and isolevel such that [mIsoLevel + sqrt3Div2 * edgeSize] of
    the root cell, computed in binary32, is below the square root of the
    largest float (about 1.8447e19), [marchCubes] returns 0 with any fuel
    (it does not crash), calls [buildCube] not at all and leaves the builder
    as it was: line 38 holds at the root cell. *)
Theorem empty_field_pruned_at_root (cube : CubeBuilder) (fuel : nat) (w : World) :
  (F32.sqrt F32.max_float
   >? mIsoLevel (this w)
      + sqrt3Div2 * (F32.of_Z (mGridSize (this w)) * mGridResolution (this w)))%f32 = true ->
  exists w',
    marchCubes cube (S fuel) emptyField w = Some (0, w')
    /\ this w' = this w
    /\ calls w' = calls w ++ [Enter 0 origin (F32.of_Z (mGridSize (this w)))]
    /\ buildCubeCalls (calls w') = buildCubeCalls (calls w).
Proof.
  intros Hgt.
  exists (entered 0 origin (F32.of_Z (mGridSize (this w))) w).
  split.
  - rewrite marchCubes_run. apply treeTraversal_prune.
    unfold pruneTest. rewrite evaluateFieldAt_empty. exact Hgt.
  - unfold entered. simpl. repeat split; try reflexivity.
    rewrite buildCubeCalls_app. apply app_nil_r.
Qed.

Lemma empty_field_pruned_at_root_witness :
  exists w',
    marchCubes crossingCube 1 emptyField (mkWorld builder4 []) = Some (0, w')
    /\ this w' = builder4
    /\ calls w' = [Enter 0 origin (F32.of_Z 4)]
    /\ buildCubeCalls (calls w') = [].
Proof.
  apply (empty_field_pruned_at_root crossingCube 0 (mkWorld builder4 [])).
  vm_compute. reflexivity.
Defined.

(** C6, as stated, fails: on a grid of edge 1 whose only sample point is
    far away, line 38 holds at the root and [buildCube] is not called,
    whatever the Cube Builder. *)
Lemma grid_size_one_far_point_builds_nothing :
  mGridSize builder1 = 1
  /\ forall cube : CubeBuilder,
       exists w',
         marchCubes cube 1 farField (mkWorld builder1 []) = Some (0, w')
         /\ buildCubeCalls (calls w') = [].
Proof.
  split; [reflexivity|].
  intros cube. rewrite marchCubes_run.
  rewrite treeTraversal_prune by (vm_compute; reflexivity).
  eexists. split; reflexivity.
Qed.

(** C6, amended. When the grid edge size is exactly 1, [marchCubes]
    returns with any fuel after a single call of [treeTraversal], the one on
    the root cell (no subdivision), and at most one call of [buildCube]:
    exactly one, on the root cell, when line 38 fails there, and none when
    it holds. *)
Theorem grid_size_one (cube : CubeBuilder) (field : ParametricScalarField)
        (fuel : nat) (w : World) :
  mGridSize (this w) = 1 ->
  exists n w' evs,
    marchCubes cube (S fuel) field w = Some (n, w')
    /\ calls w' = calls w ++ evs
    /\ traversalCalls evs = [Enter 0 origin gridSizeCutoff]
    /\ buildCubeCalls evs
       = (if pruneTest (this w) origin field gridSizeCutoff
          then [] else [BuildCube 0 origin gridSizeCutoff])
    /\ n = (if pruneTest (this w) origin field gridSizeCutoff
            then 0
            else to_unsigned (cubeCount cube (mGridResolution (this w))
                                        (mIsoLevel (this w)) origin field)).
Proof.
  intros Hsize. rewrite marchCubes_run, Hsize.
  change (F32.of_Z 1) with gridSizeCutoff.
  destruct (pruneTest (this w) origin field gridSizeCutoff) eqn:Hp.
  - rewrite (treeTraversal_prune _ _ _ _ _ _ _ Hp).
    exists 0, (entered 0 origin gridSizeCutoff w), [Enter 0 origin gridSizeCutoff].
    repeat split; reflexivity.
  - rewrite (treeTraversal_leaf _ _ _ _ _ _ _ Hp eq_refl).
    do 2 eexists.
    exists [Enter 0 origin gridSizeCutoff; BuildCube 0 origin gridSizeCutoff].
    repeat split; reflexivity.
Qed.

Lemma grid_size_one_witness :
  exists n w' evs,
    marchCubes crossingCube 1 cornerField (mkWorld builder1 []) = Some (n, w')
    /\ calls w' = [] ++ evs
    /\ traversalCalls evs = [Enter 0 origin gridSizeCutoff]
    /\ buildCubeCalls evs = [BuildCube 0 origin gridSizeCutoff]
    /\ n = 1.
Proof.
  apply (grid_size_one crossingCube cornerField 0 (mkWorld builder1 [])).
  reflexivity.
Defined.

(** ** The field evaluator on a non-empty point set *)

(** With fewer than [2^32] points the loop of lines 84-93 visits all of
    them. *)
Lemma evaluateFieldAt_fold (pos : Vec3_t) (field : ParametricScalarField) :
  Z.of_nat (length (getPoints field)) < UINT_MOD ->
  evaluateFieldAt pos field
  = F32.sqrt (fold_left (fun value p => F32.min value (distanceSquared pos p))
                        (getPoints field) F32.max_float).
Proof.
  intros Hlen. unfold evaluateFieldAt.
  rewrite to_unsigned_small by lia.
  rewrite Nat2Z.id, firstn_all. reflexivity.
Qed.

(** C8, as stated, fails: the squared distance from the origin to the
    point [(2^100, 0, 0)] overflows to [+inf], which [std::min] never picks
    over the seed; the evaluator returns the square root of the largest
    float, not the square root of the minimum squared distance. *)
Lemma overflowing_distance_is_ignored :
  minSquaredDistance origin (getPoints overflowField) = Some (S754_infinity false)
  /\ evaluateFieldAt origin overflowField = S754_finite false 16777215 40
  /\ evaluateFieldAt origin overflowField <> F32.sqrt (S754_infinity false).
Proof.
  split; [vm_compute; reflexivity|].
  split; [vm_compute; reflexivity|].
  vm_compute. discriminate.
Qed.

(** ** The order of binary32 values *)

Lemma ltb_irrefl (a : float) : (a <? a)%f32 = false.
Proof.
  unfold F32.ltb, SFltb.
  destruct a as [[|]|[|]| |[|] m e]; simpl; try reflexivity;
    rewrite Z.compare_refl;
    change (Pos.compare_cont Eq m m) with (Pos.compare m m);
    rewrite Pos.compare_refl; reflexivity.
Qed.

Lemma ltb_finite (s1 s2 : bool) (m1 m2 : positive) (e1 e2 : Z) :
  (S754_finite s1 m1 e1 <? S754_finite s2 m2 e2)%f32 = true <->
  match s1, s2 with
  | true, false => True
  | false, true => False
  | false, false => e1 < e2 \/ (e1 = e2 /\ (m1 < m2)%positive)
  | true, true => e2 < e1 \/ (e1 = e2 /\ (m2 < m1)%positive)
  end.
Proof.
  unfold F32.ltb, SFltb, SFcompare.
  change (Pos.compare_cont Eq m1 m2) with (Pos.compare m1 m2).
  destruct s1, s2; try (split; [trivial|reflexivity]); try (split; [discriminate|contradiction]);
    destruct (Z.compare_spec e1 e2) as [He|He|He];
    destruct (Pos.compare_spec m1 m2) as [Hm|Hm|Hm]; simpl;
    split; intros H; try reflexivity; try discriminate; try lia.
Qed.

Lemma ltb_trans (a b c : float) :
  (a <? b)%f32 = true -> (b <? c)%f32 = true -> (a <? c)%f32 = true.
Proof.
  destruct a as [sa|sa| |sa ma ea], b as [sb|sb| |sb mb eb], c as [sc|sc| |sc mc ec];
    try (destruct sa; discriminate); try (destruct sb; discriminate);
    try (destruct sa, sb; discriminate); try (destruct sb, sc; discriminate);
    try (destruct sa, sc; intros; (reflexivity || discriminate));
    try discriminate.
  all: try (destruct sa, sb, sc; intros; (reflexivity || discriminate)).
  rewrite !ltb_finite. destruct sa, sb, sc; try tauto; lia.
Qed.

(** ** The running minimum of lines 84-93 *)

(** What the loop leaves in [value]: the seed or one of the values it was
    offered, at most the seed, and such that no offered value is below it. *)
Lemma fold_min_least {A : Type} (d : A -> float) (l : list A) :
  forall v : float,
  let r := fold_left (fun value p => F32.min value (d p)) l v in
  (r = v \/ exists p, In p l /\ r = d p)
  /\ (r = v \/ (r <? v)%f32 = true)
  /\ (forall p, In p l -> (d p <? r)%f32 = false).
Proof.
  induction l as [|a l IH]; intros v; simpl.
  - split; [left; reflexivity|]. split; [left; reflexivity|]. intros p [].
  - destruct (IH (F32.min v (d a))) as (Hin & Hle & Hlow).
    set (r := fold_left (fun value p => F32.min value (d p)) l (F32.min v (d a))) in *.
    unfold F32.min in Hin, Hle. unfold F32.min in r.
    destruct (d a <? v)%f32 eqn:Hlt.
    + split; [|split].
      * right. destruct Hin as [Hr|(p & Hp & Hr)].
        -- exists a. split; [left; reflexivity|exact Hr].
        -- exists p. split; [right; exact Hp|exact Hr].
      * right. destruct Hle as [Hr|Hr].
        -- rewrite Hr. exact Hlt.
        -- eapply ltb_trans; [exact Hr|exact Hlt].
      * intros p [<-|Hp]; [|apply Hlow; exact Hp].
        destruct Hle as [Hr|Hr].
        -- rewrite Hr. apply ltb_irrefl.
        -- destruct (d a <? r)%f32 eqn:Hc; [|reflexivity].
           rewrite <- (ltb_irrefl r). symmetry.
           eapply ltb_trans; [exact Hr|exact Hc].
    + split; [|split].
      * destruct Hin as [Hr|(p & Hp & Hr)]; [left; exact Hr|].
        right. exists p. split; [right; exact Hp|exact Hr].
      * exact Hle.
      * intros p [<-|Hp]; [|apply Hlow; exact Hp].
        destruct Hle as [Hr|Hr].
        -- rewrite Hr. exact Hlt.
        -- destruct (d a <? r)%f32 eqn:Hc; [|reflexivity].
           rewrite <- Hlt. symmetry.
           eapply ltb_trans; [exact Hc|exact Hr].
Qed.

Lemma ltb_leb (a b : float) : (a <? b)%f32 = true -> (a <=? b)%f32 = true.
Proof.
  unfold F32.ltb, F32.leb, SFltb, SFleb.
  destruct (SFcompare a b) as [[| |]|]; (reflexivity || discriminate).
Qed.

Lemma leb_max_float (d : float) :
  (d <=? F32.max_float)%f32 = true ->
  d = F32.max_float \/ (d <? F32.max_float)%f32 = true.
Proof.
  unfold F32.leb, F32.ltb, SFleb, SFltb.
  destruct (SFcompare d F32.max_float) as [[| |]|] eqn:Hc; try discriminate; intros _.
  - left. exact (SFcompare_Eq_finite d false 16777215 104 Hc).
  - right. reflexivity.
Qed.

(** C8, amended. For every position and every point set of fewer than
    [2^32] points, [evaluateFieldAt] returns the binary32 square root of a
    value [m] that is the largest float or the squared Euclidean distance to
    one of the points, the sum of the squares of the three coordinate
    differences computed in binary32 in the order of lines 86-88.  [m] is at
    most the largest float and no point has a squared distance below [m];
    as soon as the squared distance to one point did not overflow (it is at
    most the largest float, hence not NaN), [m] is the squared distance to
    one of the points: the minimum squared distance.  The embedding is a
    function of the position and the field alone: it reads no builder state
    and has no effect. *)
Theorem evaluateFieldAt_min (pos : Vec3_t) (field : ParametricScalarField) :
  Z.of_nat (length (getPoints field)) < UINT_MOD ->
  let squared (p : Vec3_t) : float :=
    ((x pos - x p) * (x pos - x p) + (y pos - y p) * (y pos - y p)
     + (z pos - z p) * (z pos - z p))%f32 in
  exists m : float,
    evaluateFieldAt pos field = F32.sqrt m
    /\ (m = F32.max_float \/ exists p, In p (getPoints field) /\ m = squared p)
    /\ (m <=? F32.max_float)%f32 = true
    /\ (forall p, In p (getPoints field) -> (squared p <? m)%f32 = false)
    /\ ((exists p, In p (getPoints field) /\ (squared p <=? F32.max_float)%f32 = true) ->
        exists q, In q (getPoints field) /\ m = squared q).
Proof.
  intros Hlen squared.
  destruct (fold_min_least (distanceSquared pos) (getPoints field) F32.max_float)
    as (Hin & Hle & Hlow).
  set (m := fold_left (fun value p => F32.min value (distanceSquared pos p))
                      (getPoints field) F32.max_float) in *.
  exists m.
  split; [apply evaluateFieldAt_fold; exact Hlen|].
  split; [exact Hin|].
  split; [destruct Hle as [->|Hlt]; [reflexivity|apply ltb_leb; exact Hlt]|].
  split; [exact Hlow|].
  intros (p & Hp & Hfin).
  destruct Hin as [Hm|Hq]; [|exact Hq].
  exists p. split; [exact Hp|].
  destruct (leb_max_float _ Hfin) as [Heq|Hlt].
  - rewrite Hm. symmetry. exact Heq.
  - specialize (Hlow p Hp). rewrite Hm in Hlow.
    change (distanceSquared pos p) with (squared p) in Hlow. congruence.
Qed.

Lemma evaluateFieldAt_min_witness :
  evaluateFieldAt origin scatterField = F32.sqrt (F32.of_Z 3).
Proof.
  destruct (evaluateFieldAt_min origin scatterField ltac:(vm_compute; reflexivity))
    as (m & Hval & Hin & _ & Hlow & _).
  rewrite Hval. f_equal.
  pose proof (Hlow (mkVec3 F32.one F32.one F32.one) ltac:(simpl; tauto)) as Hnear.
  destruct Hin as [->|(p & Hp & ->)]; [vm_compute in Hnear; discriminate|].
  simpl in Hp. destruct Hp as [<-|[<-|[<-|[<-|[]]]]];
    solve [vm_compute; reflexivity | vm_compute in Hnear; discriminate].
Defined.

(** ** Depth of the subdivision *)

Lemma wellPlaced_root (k : nat) (evs : list Event) :
  Forall (wellPlaced 0 k) evs ->
  (maxLevel evs <= k)%nat
  /\ Forall (fun e => eventGridSize e = F32.pow2 (Z.of_nat (k - eventLevel e))) evs
  /\ Forall (fun e => isBuildCube e = true ->
                      eventLevel e = k /\ eventGridSize e = gridSizeCutoff) evs
  /\ (buildCubeCalls evs <> [] -> maxLevel evs = k).
Proof.
  intros H.
  assert (Hle : (maxLevel evs <= k)%nat).
  { apply maxLevel_le. eapply Forall_impl; [|exact H].
    intros e ((_ & Hl) & _). exact Hl. }
  split; [exact Hle|]. split; [|split].
  - eapply Forall_impl; [|exact H]. intros e (_ & Hg & _). exact Hg.
  - eapply Forall_impl; [|exact H]. intros e (_ & _ & Hb). exact Hb.
  - intros Hne.
    destruct (buildCubeCalls evs) as [|e l] eqn:Hb; [congruence|].
    assert (Hin : In e (buildCubeCalls evs)) by (rewrite Hb; left; reflexivity).
    apply filter_In in Hin. destruct Hin as (Hin & Hbc).
    rewrite Forall_forall in H. destruct (H e Hin) as (_ & _ & Hk).
    destruct (Hk Hbc) as (Hlev & _).
    apply maxLevel_ge in Hin. simpl in Hlev. lia.
Qed.

(** C3, as stated, fails: on a grid of edge 2 whose only sample point is
    far away the root cell is pruned; whatever the Cube Builder, the
    traversal stops at level 0 and does not reach level [log2 2 = 1]. *)
Lemma pruned_root_is_not_subdivided :
  mGridSize builder2 = 2 ^ 1
  /\ forall cube : CubeBuilder,
       exists w',
         marchCubes cube 2 farField (mkWorld builder2 []) = Some (0, w')
         /\ calls w' = [Enter 0 origin F32.two]
         /\ maxLevel (calls w') = 0%nat.
Proof.
  split; [reflexivity|].
  intros cube. rewrite marchCubes_run.
  rewrite treeTraversal_prune by (vm_compute; reflexivity).
  eexists. repeat split; reflexivity.
Qed.

(** ** The log, level by level *)

Lemma filter_flat_map {A B : Type} (P : B -> bool) (f : A -> list B) (l : list A) :
  filter P (flat_map f l) = flat_map (fun a => filter P (f a)) l.
Proof.
  induction l as [|a l IH]; simpl; [reflexivity|].
  rewrite filter_app, IH. reflexivity.
Qed.

Lemma flat_map_length_scaled {A B C : Type} (c : nat) (f : A -> list B) (g : A -> list C)
      (l : list A) :
  (forall a, In a l -> length (f a) = (c * length (g a))%nat) ->
  length (flat_map f l) = (c * length (flat_map g l))%nat.
Proof.
  induction l as [|a l IH]; intros H; simpl; [lia|].
  rewrite !length_app, (H a (or_introl eq_refl)), IH; [lia|].
  intros b Hb. apply H. right. exact Hb.
Qed.

Lemma flat_map_nil {A B : Type} (f : A -> list B) (l : list A) :
  (forall a, In a l -> f a = []) -> flat_map f l = [].
Proof.
  induction l as [|a l IH]; intros H; simpl; [reflexivity|].
  rewrite (H a (or_introl eq_refl)), IH; [reflexivity|].
  intros b Hb. apply H. right. exact Hb.
Qed.

Lemma enteredAt_cons_Enter (l level : nat) (pos : Vec3_t) (g : float) (evs : list Event) :
  enteredAt l (Enter level pos g :: evs)
  = if (level =? l)%nat then Enter level pos g :: enteredAt l evs else enteredAt l evs.
Proof. unfold enteredAt. simpl. destruct (level =? l)%nat; reflexivity. Qed.

Lemma enteredAt_flat_map {A : Type} (l : nat) (f : A -> list Event) (xs : list A) :
  enteredAt l (flat_map f xs) = flat_map (fun a => enteredAt l (f a)) xs.
Proof. apply filter_flat_map. Qed.

Lemma notPruned_flat_map {A : Type} (b : TreeMeshBuilder) (field : ParametricScalarField)
      (f : A -> list Event) (xs : list A) :
  notPruned b field (flat_map f xs) = flat_map (fun a => notPruned b field (f a)) xs.
Proof. apply filter_flat_map. Qed.

Section Levels.

Variable b : TreeMeshBuilder.
Variable field : ParametricScalarField.

(** No call of the log of a cell is above the level of that cell. *)
Lemma octreeTrace_none_above (depth : nat) :
  forall (level l : nat) (pos : Vec3_t) (g : float),
  (l < level)%nat -> enteredAt l (octreeTrace b field depth level pos g) = [].
Proof.
  induction depth as [|d IH]; intros level l pos g Hl;
    rewrite octreeTrace_eq, enteredAt_cons_Enter;
    (replace (level =? l)%nat with false by (symmetry; apply Nat.eqb_neq; lia));
    destruct (pruneTest b pos field g); try reflexivity.
  rewrite enteredAt_flat_map. apply flat_map_nil.
  intros off _. apply IH. lia.
Qed.

(** At its own level the log of a cell holds the call on that cell only. *)
Lemma octreeTrace_own_level (depth level : nat) (pos : Vec3_t) (g : float) :
  enteredAt level (octreeTrace b field depth level pos g) = [Enter level pos g].
Proof.
  rewrite octreeTrace_eq, enteredAt_cons_Enter, Nat.eqb_refl. f_equal.
  destruct (pruneTest b pos field g); [reflexivity|].
  destruct depth as [|d]; [reflexivity|].
  rewrite enteredAt_flat_map. apply flat_map_nil.
  intros off _. apply octreeTrace_none_above. lia.
Qed.

Lemma notPruned_one (level : nat) (pos : Vec3_t) (g : float) :
  notPruned b field [Enter level pos g]
  = if pruneTest b pos field g then [] else [Enter level pos g].
Proof. unfold notPruned. simpl. destruct (pruneTest b pos field g); reflexivity. Qed.

(** Each call on a cell that is not pruned and not yet a unit cell makes
    8 calls one level down, and a pruned cell makes none. *)
Lemma octreeTrace_children_count (depth : nat) :
  forall (level l : nat) (pos : Vec3_t) (g : float),
  (level <= l)%nat -> (l < level + depth)%nat ->
  length (enteredAt (S l) (octreeTrace b field depth level pos g))
  = (8 * length (notPruned b field
                   (enteredAt l (octreeTrace b field depth level pos g))))%nat.
Proof.
  induction depth as [|d IH]; intros level l pos g Hl Hd; [lia|].
  destruct (Nat.eq_dec l level) as [->|Hne].
  - rewrite octreeTrace_own_level, notPruned_one.
    rewrite octreeTrace_eq, enteredAt_cons_Enter.
    replace (level =? S level)%nat with false by (symmetry; apply Nat.eqb_neq; lia).
    destruct (pruneTest b pos field g); [reflexivity|].
    rewrite enteredAt_flat_map.
    rewrite (flat_map_length_scaled 1 _ (fun off : Vec3_t => [off]));
      [reflexivity|].
    intros off _. rewrite octreeTrace_own_level. reflexivity.
  - rewrite octreeTrace_eq, !enteredAt_cons_Enter.
    replace (level =? S l)%nat with false by (symmetry; apply Nat.eqb_neq; lia).
    replace (level =? l)%nat with false by (symmetry; apply Nat.eqb_neq; lia).
    destruct (pruneTest b pos field g); [reflexivity|].
    rewrite !enteredAt_flat_map, notPruned_flat_map.
    apply flat_map_length_scaled.
    intros off _. apply IH; lia.
Qed.

(** [buildCube] is called once for each call on the last level that is
    not pruned. *)
Lemma octreeTrace_builds_count (depth : nat) :
  forall (level : nat) (pos : Vec3_t) (g : float),
  length (buildCubeCalls (octreeTrace b field depth level pos g))
  = length (notPruned b field
              (enteredAt (level + depth) (octreeTrace b field depth level pos g))).
Proof.
  induction depth as [|d IH]; intros level pos g.
  - rewrite Nat.add_0_r, octreeTrace_own_level, notPruned_one, octreeTrace_eq.
    destruct (pruneTest b pos field g); reflexivity.
  - rewrite octreeTrace_eq, enteredAt_cons_Enter.
    replace (level =? level + S d)%nat with false by (symmetry; apply Nat.eqb_neq; lia).
    change (buildCubeCalls (Enter level pos g :: ?l)) with (buildCubeCalls l).
    destruct (pruneTest b pos field g); [reflexivity|].
    unfold buildCubeCalls. rewrite filter_flat_map.
    rewrite enteredAt_flat_map, notPruned_flat_map.
    rewrite (flat_map_length_scaled 1 _
               (fun off => notPruned b field
                             (enteredAt (level + S d)
                                (octreeTrace b field d (S level)
                                   (childPos pos (g / F32.two)%f32 off) (g / F32.two)%f32))));
      [lia|].
    intros off _. fold (buildCubeCalls (octreeTrace b field d (S level)
                          (childPos pos (g / F32.two)%f32 off) (g / F32.two)%f32)).
    rewrite IH. replace (S level + d)%nat with (level + S d)%nat by lia. lia.
Qed.

(** The calls below a call that is not pruned: its 8 children above the
    last level, [buildCube] on the last level. *)
Lemma octreeTrace_goes_on (depth : nat) :
  forall (level l : nat) (pos p : Vec3_t) (g gg : float),
  In (Enter l p gg) (octreeTrace b field depth level pos g) ->
  pruneTest b p field gg = false ->
  ((l < level + depth)%nat ->
   forall off, In off sc_vertexNormPos ->
     In (Enter (S l) (childPos p (gg / F32.two)%f32 off) (gg / F32.two)%f32)
        (octreeTrace b field depth level pos g))
  /\ (l = (level + depth)%nat ->
      In (BuildCube l p gg) (octreeTrace b field depth level pos g)).
Proof.
  induction depth as [|d IH]; intros level l pos p g gg Hin Hp;
    rewrite octreeTrace_eq in Hin |- *; destruct Hin as [Heq|Hin].
  - inversion Heq; subst l p gg. rewrite Hp.
    split; [lia|]. intros _. right. left. reflexivity.
  - destruct (pruneTest b pos field g); [contradiction|].
    destruct Hin as [Heq|[]]. discriminate Heq.
  - inversion Heq; subst l p gg. rewrite Hp.
    split; [|lia]. intros _ off Hoff. right.
    apply in_flat_map. exists off. split; [exact Hoff|].
    rewrite octreeTrace_eq. left. reflexivity.
  - destruct (pruneTest b pos field g); [contradiction|].
    apply in_flat_map in Hin. destruct Hin as (o & Ho & Hin).
    destruct (IH _ _ _ _ _ _ Hin Hp) as (Hsub & Hbuild).
    split.
    + intros Hl off Hoff. right. apply in_flat_map. exists o.
      split; [exact Ho|]. apply Hsub; [lia|exact Hoff].
    + intros Hl. right. apply in_flat_map. exists o.
      split; [exact Ho|]. apply Hbuild. lia.
Qed.

End Levels.

Lemma enteredAt_In (l : nat) (evs : list Event) (e : Event) :
  In e (enteredAt l evs) -> In e evs /\ eventLevel e = l.
Proof.
  unfold enteredAt. intros H. apply filter_In in H. destruct H as (Hin & Hb).
  apply andb_prop in Hb. destruct Hb as (_ & Hl). apply Nat.eqb_eq in Hl. tauto.
Qed.

(** C3, amended. For every grid edge size [2^k] ([k < 32], the powers of
    two of an [unsigned]) the traversal returns with any fuel above [k].  It
    starts with one call on the root; every call on a cell that is not
    pruned and lies above level [k] makes the 8 calls on its children, one
    level down, and a pruned cell makes none, so each level holds 8 calls
    per unpruned call of the level above; on level [k] every call that is
    not pruned calls [buildCube], and nothing else does.  No call is below
    level [k = log2 gridEdgeSize], the cell of a call at level [d] has edge
    [2^(k-d)], and every cell handed to [buildCube] is at level exactly [k]
    and has edge length exactly 1.  The subdivision reaches exactly [k]
    levels whenever some cell is built, and stops above level [k] only
    where every call of the deepest level was pruned. *)
Theorem subdivision_depth (cube : CubeBuilder) (field : ParametricScalarField)
        (k fuel : nat) (w : World) :
  (k < 32)%nat ->
  mGridSize (this w) = 2 ^ Z.of_nat k ->
  (k < fuel)%nat ->
  exists n w' evs,
    marchCubes cube fuel field w = Some (n, w')
    /\ calls w' = calls w ++ evs
    /\ (maxLevel evs <= k)%nat
    /\ Forall (fun e => eventGridSize e = F32.pow2 (Z.of_nat (k - eventLevel e))) evs
    /\ Forall (fun e => isBuildCube e = true ->
                        eventLevel e = k /\ eventGridSize e = gridSizeCutoff) evs
    /\ (buildCubeCalls evs <> [] -> maxLevel evs = k)
    /\ enteredAt 0 evs = [Enter 0 origin (F32.pow2 (Z.of_nat k))]
    /\ (forall l, (l < k)%nat ->
          length (enteredAt (S l) evs)
          = (8 * length (notPruned (this w) field (enteredAt l evs)))%nat)
    /\ length (buildCubeCalls evs)
       = length (notPruned (this w) field (enteredAt k evs))
    /\ (forall l p g, In (Enter l p g) evs -> pruneTest (this w) p field g = false ->
          ((l < k)%nat ->
           forall off, In off sc_vertexNormPos ->
             In (Enter (S l) (childPos p (g / F32.two)%f32 off) (g / F32.two)%f32) evs)
          /\ (l = k -> In (BuildCube l p g) evs))
    /\ ((maxLevel evs < k)%nat ->
        notPruned (this w) field (enteredAt (maxLevel evs) evs) = []).
Proof.
  intros Hk Hsize Hfuel.
  rewrite marchCubes_run, Hsize, of_Z_pow2 by exact Hk.
  destruct (treeTraversal_pow2 cube field k fuel 0 origin w Hk Hfuel)
    as (n & w' & Hrun & Hcalls & _).
  set (evs := octreeTrace (this w) field k 0 origin (F32.pow2 (Z.of_nat k))) in *.
  assert (Hcount : forall l, (l < k)%nat ->
            length (enteredAt (S l) evs)
            = (8 * length (notPruned (this w) field (enteredAt l evs)))%nat)
    by (intros l Hl; apply octreeTrace_children_count; lia).
  destruct (wellPlaced_root k evs (octreeTrace_wellPlaced _ _ _ 0%nat origin Hk))
    as (Hmax & Hsizes & Hbuilt & Hdeep).
  exists n, w', evs.
  split; [exact Hrun|]. split; [exact Hcalls|]. split; [exact Hmax|].
  split; [exact Hsizes|]. split; [exact Hbuilt|]. split; [exact Hdeep|].
  split; [apply octreeTrace_own_level|]. split; [exact Hcount|].
  split; [apply (octreeTrace_builds_count (this w) field k 0)|].
  split; [intros l p g Hin Hp; apply (octreeTrace_goes_on (this w) field k 0 l origin p _ g Hin Hp)|].
  intros Hlt.
  destruct (notPruned (this w) field (enteredAt (maxLevel evs) evs)) as [|e rest] eqn:Hnp;
    [reflexivity|].
  specialize (Hcount (maxLevel evs) Hlt). rewrite Hnp in Hcount.
  destruct (enteredAt (S (maxLevel evs)) evs) as [|e' rest'] eqn:He; [discriminate Hcount|].
  assert (Hin : In e' (enteredAt (S (maxLevel evs)) evs)) by (rewrite He; left; reflexivity).
  apply enteredAt_In in Hin. destruct Hin as (Hin & Hlev).
  apply maxLevel_ge in Hin. lia.
Qed.

Lemma subdivision_depth_witness :
  exists n w' evs,
    marchCubes crossingCube 3 centreField (mkWorld builder4 []) = Some (n, w')
    /\ calls w' = evs
    /\ (maxLevel evs <= 2)%nat
    /\ enteredAt 0 evs = [Enter 0 origin (F32.pow2 2)]
    /\ length (enteredAt 1 evs)
       = (8 * length (notPruned builder4 centreField (enteredAt 0 evs)))%nat
    /\ length (enteredAt 2 evs)
       = (8 * length (notPruned builder4 centreField (enteredAt 1 evs)))%nat
    /\ length (buildCubeCalls evs)
       = length (notPruned builder4 centreField (enteredAt 2 evs)).
Proof.
  destruct (subdivision_depth crossingCube centreField 2 3 (mkWorld builder4 []))
    as (n & w' & evs & Hrun & Hcalls & Hmax & _ & _ & _ & Hroot & Hcount & Hbuilds & _);
    [lia|reflexivity|lia|].
  exists n, w', evs.
  split; [exact Hrun|]. split; [exact Hcalls|]. split; [exact Hmax|].
  split; [exact Hroot|].
  split; [apply Hcount; lia|]. split; [apply Hcount; lia|exact Hbuilds].
Defined.

(** ** Pruning and the total count *)

Lemma returnedBy_Permutation (cube : CubeBuilder) (b : TreeMeshBuilder)
      (field : ParametricScalarField) (c1 c2 : list Vec3_t) :
  Permutation c1 c2 ->
  Permutation (returnedBy cube b field c1) (returnedBy cube b field c2).
Proof. apply Permutation_map. Qed.

(** The constant of line 17 is the binary32 nearest to 0.86602540378,
    which lies below [sqrt 3 / 2]: its square is less than [3/4]. *)
Lemma sqrt3Div2_rounds_down :
  sqrt3Div2 = S754_finite false 14529495 (-24)
  /\ 4 * 14529495 ^ 2 < 3 * (2 ^ 24) ^ 2.
Proof. split; [reflexivity|lia]. Qed.

(** C2. The code at the failing input: one unit cell of world edge 2,
    isolevel 0.125, one sample point just outside corner 0.  Corner 0 is
    inside the surface (its field value is below the isolevel) and the other
    seven corners are outside, so the surface crosses the cell; yet in
    binary32 the value at the centre exceeds the threshold of line 38 by one
    unit in the last place and the root is pruned.  The traversal returns 0
    and calls [buildCube] not at all, while building the cell yields
    whatever [buildCube] returns on it: every Cube Builder that finds a
    triangle in this cell makes the two counts differ. *)
Lemma pruning_drops_a_crossed_cell :
  mGridSize grazeBuilder = 2 ^ 0
  /\ cubeConfiguration (mGridResolution grazeBuilder) (mIsoLevel grazeBuilder)
                       origin grazeField
     = [true; false; false; false; false; false; false; false]
  /\ evaluateFieldAt (cubeCenter3D grazeBuilder origin gridSizeCutoff) grazeField
     = S754_finite false 15578072 (-23)
  /\ pruneThreshold grazeBuilder gridSizeCutoff = S754_finite false 15578071 (-23)
  /\ (forall cube : CubeBuilder,
        marchCubes cube 1 grazeField (mkWorld grazeBuilder [])
        = Some (0, mkWorld grazeBuilder [Enter 0 origin gridSizeCutoff])
        /\ buildEveryLeaf cube grazeBuilder grazeField 0 origin (F32.pow2 0)
           = to_unsigned (cubeCount cube (mGridResolution grazeBuilder)
                                    (mIsoLevel grazeBuilder) origin grazeField))
  /\ buildEveryLeaf crossingCube grazeBuilder grazeField 0 origin (F32.pow2 0) = 1.
Proof.
  do 4 (split; [vm_compute; reflexivity|]).
  split; [|vm_compute; reflexivity].
  intros cube. split.
  - rewrite marchCubes_run.
    rewrite treeTraversal_prune by (vm_compute; reflexivity). reflexivity.
  - unfold buildEveryLeaf, returnedBy, usum. simpl.
    rewrite Z.add_0_r. apply to_unsigned_idem.
Qed.

(** ** The returned count and the buffer *)

Lemma mTriangles_appended (b : TreeMeshBuilder) (ts : list Triangle_t) :
  mTriangles (appended b ts) = mTriangles b ++ ts.
Proof. reflexivity. Qed.

(** Where line 38 holds on no cell of the octree, the traversal is the
    sequential build of every leaf. *)
Lemma full_traversal (cube : CubeBuilder) (field : ParametricScalarField)
      (k fuel : nat) (w : World) :
  (k < 32)%nat ->
  mGridSize (this w) = 2 ^ Z.of_nat k ->
  (k < fuel)%nat ->
  (forall (j : nat) (pos : Vec3_t), (j <= k)%nat ->
     pruneTest (this w) pos field (F32.pow2 (Z.of_nat j)) = false) ->
  exists n w',
    marchCubes cube fuel field w = Some (n, w')
    /\ this w' = appended (this w)
                   (emittedBy cube (this w) field
                              (leafCells k origin (F32.pow2 (Z.of_nat k))))
    /\ n = buildEveryLeaf cube (this w) field k origin (F32.pow2 (Z.of_nat k)).
Proof.
  intros Hk Hsize Hfuel Hnp.
  rewrite marchCubes_run, Hsize, of_Z_pow2 by exact Hk.
  destruct (treeTraversal_pow2 cube field k fuel 0 origin w Hk Hfuel)
    as (n & w' & Hrun & _ & Ht & Hn).
  rewrite (octreeTrace_no_prune _ _ _ Hk Hnp) in Ht, Hn.
  exists n, w'. repeat split; assumption.
Qed.

Lemma uniform_emitted_length (c : nat) (b : TreeMeshBuilder)
      (field : ParametricScalarField) (cells : list Vec3_t) :
  Z.of_nat (length (emittedBy (uniformCube c) b field cells))
  = Z.of_nat c * Z.of_nat (length cells).
Proof.
  induction cells as [|p cells IH]; [simpl; lia|].
  change (emittedBy (uniformCube c) b field (p :: cells))
    with (repeat (mkTriangle p p p) c ++ emittedBy (uniformCube c) b field cells).
  rewrite length_app, repeat_length, Nat2Z.inj_add, IH. simpl length. lia.
Qed.

Lemma uniform_returned_sum (c : nat) (b : TreeMeshBuilder)
      (field : ParametricScalarField) (cells : list Vec3_t) :
  usum (returnedBy (uniformCube c) b field cells)
  = to_unsigned (Z.of_nat c * Z.of_nat (length cells)).
Proof.
  unfold usum.
  assert (H : fold_right Z.add 0 (returnedBy (uniformCube c) b field cells)
              = to_unsigned (Z.of_nat c) * Z.of_nat (length cells)).
  { induction cells as [|p cells IH]; [simpl; lia|].
    change (returnedBy (uniformCube c) b field (p :: cells))
      with (to_unsigned (Z.of_nat c) :: returnedBy (uniformCube c) b field cells).
    simpl fold_right. rewrite IH. simpl length. lia. }
  rewrite H. unfold to_unsigned, UINT_MOD.
  apply Z.mul_mod_idemp_l. lia.
Qed.

(** A grid on which nothing is pruned, every cell yielding [c]
    triangles. *)
Lemma uniform_run (c k fuel : nat) (b : TreeMeshBuilder)
      (field : ParametricScalarField) :
  (k < 32)%nat ->
  mGridSize b = 2 ^ Z.of_nat k ->
  (k < fuel)%nat ->
  mTriangles b = [] ->
  (forall (j : nat) (pos : Vec3_t), (j <= k)%nat ->
     pruneTest b pos field (F32.pow2 (Z.of_nat j)) = false) ->
  exists w',
    marchCubes (uniformCube c) fuel field (mkWorld b [])
    = Some (to_unsigned (Z.of_nat c * 8 ^ Z.of_nat k), w')
    /\ Z.of_nat (length (getTrianglesArray (this w'))) = Z.of_nat c * 8 ^ Z.of_nat k.
Proof.
  intros Hk Hsize Hfuel Hempty Hnp.
  destruct (full_traversal (uniformCube c) field k fuel (mkWorld b []) Hk Hsize Hfuel Hnp)
    as (n & w' & Hrun & Ht & Hn).
  exists w'. split.
  - rewrite Hrun, Hn. unfold buildEveryLeaf.
    rewrite uniform_returned_sum, leafCells_length. reflexivity.
  - unfold getTrianglesArray. rewrite Ht, mTriangles_appended.
    change (this (mkWorld b [])) with b. rewrite Hempty, app_nil_l.
    rewrite uniform_emitted_length, leafCells_length. reflexivity.
Qed.

Lemma builder1024_never_prunes (j : nat) (pos : Vec3_t) :
  (j <= 10)%nat ->
  pruneTest builder1024 pos emptyField (F32.pow2 (Z.of_nat j)) = false.
Proof.
  intros Hj. unfold pruneTest. rewrite evaluateFieldAt_empty.
  do 11 (destruct j as [|j]; [vm_compute; reflexivity|]).
  lia.
Qed.

(** C10, as stated, fails.  The count is an [unsigned] and wraps: on a
    1024^3 grid where nothing is pruned and [buildCube] finds 4 triangles in
    every cell (as marching cubes does where inside and outside corners
    alternate), returning 4 each time, [2^32] triangles are appended and
    [marchCubes] returns 0.  And [marchCubes] does not clear the buffer: a
    second run on the same builder returns 1 again and leaves a buffer of
    2. *)
Lemma count_wraps_around :
  (forall res iso pos field,
     to_unsigned (cubeCount (uniformCube 4) res iso pos field)
     = Z.of_nat (length (cubeTriangles (uniformCube 4) res iso pos field)))
  /\ (exists w',
        marchCubes (uniformCube 4) 11 emptyField (mkWorld builder1024 []) = Some (0, w')
        /\ Z.of_nat (length (getTrianglesArray (this w'))) = 2 ^ 32)
  /\ (exists w1 w2,
        marchCubes crossingCube 1 cornerField (mkWorld builder1 []) = Some (1, w1)
        /\ marchCubes crossingCube 1 cornerField w1 = Some (1, w2)
        /\ length (getTrianglesArray (this w2)) = 2%nat).
Proof.
  split; [intros; reflexivity|].
  split.
  - destruct (uniform_run 4 10 11 builder1024 emptyField) as (w' & Hrun & Hlen);
      [lia|reflexivity|lia|reflexivity|apply builder1024_never_prunes|].
    exists w'. split; [exact Hrun|exact Hlen].
  - do 2 eexists. split; [vm_compute; reflexivity|].
    split; vm_compute; reflexivity.
Qed.

Section CountAndBuffer.

Variable cube : CubeBuilder.
Variable field : ParametricScalarField.

(** [buildCube] returns exactly the number of triangles it emits. *)
Hypothesis count_is_emitted :
  forall res iso pos,
    to_unsigned (cubeCount cube res iso pos field)
    = Z.of_nat (length (cubeTriangles cube res iso pos field)).

Lemma emitted_length (b : TreeMeshBuilder) (cells : list Vec3_t) :
  Z.of_nat (length (emittedBy cube b field cells))
  = fold_right Z.add 0 (returnedBy cube b field cells).
Proof.
  induction cells as [|p cells IH]; [reflexivity|].
  change (emittedBy cube b field (p :: cells))
    with (cubeTriangles cube (mGridResolution b) (mIsoLevel b) p field
          ++ emittedBy cube b field cells).
  change (returnedBy cube b field (p :: cells))
    with (to_unsigned (cubeCount cube (mGridResolution b) (mIsoLevel b) p field)
          :: returnedBy cube b field cells).
  rewrite length_app, Nat2Z.inj_add, IH, count_is_emitted. reflexivity.
Qed.

Lemma extends_count (w w' : World) (n : Z) (evs : list Event) :
  extends cube field w w' n evs ->
  exists ts,
    mTriangles (this w') = mTriangles (this w) ++ ts
    /\ n = to_unsigned (Z.of_nat (length ts))
    /\ (Z.of_nat (length ts) < UINT_MOD -> n = Z.of_nat (length ts)).
Proof.
  intros (_ & Ht & Hn).
  exists (emittedBy cube (this w) field (builtCells evs)).
  split; [rewrite Ht; apply mTriangles_appended|].
  assert (Hmod : n = to_unsigned (Z.of_nat (length (emittedBy cube (this w) field
                                                              (builtCells evs))))).
  { rewrite Hn, emitted_length. reflexivity. }
  split; [exact Hmod|].
  intros Hlt. rewrite Hmod. apply to_unsigned_small. lia.
Qed.

(** C10, amended. Assume [buildCube] returns exactly the number of
    triangles it emits.  Then every call of [treeTraversal] that returns has
    appended some triangles at the end of [mTriangles] and returns their
    number modulo [2^32], which is their number when fewer than [2^32] were
    appended; the same holds of [marchCubes] and the whole buffer read by
    [getTrianglesArray] when the buffer was empty at the start; and on a grid
    of edge [2^k], [k < 32], [marchCubes] does return, with any fuel above
    [k]. *)
Theorem count_is_appended_modulo :
  (forall (fuel level : nat) (pos : Vec3_t) (gridSize : float) (w w' : World) (n : Z),
     treeTraversal cube fuel level pos field gridSize w = Some (n, w') ->
     exists ts,
       mTriangles (this w') = mTriangles (this w) ++ ts
       /\ n = to_unsigned (Z.of_nat (length ts))
       /\ (Z.of_nat (length ts) < UINT_MOD -> n = Z.of_nat (length ts)))
  /\ (forall (fuel : nat) (w w' : World) (n : Z),
        mTriangles (this w) = [] ->
        marchCubes cube fuel field w = Some (n, w') ->
        n = to_unsigned (Z.of_nat (length (getTrianglesArray (this w'))))
        /\ (Z.of_nat (length (getTrianglesArray (this w'))) < UINT_MOD ->
            n = Z.of_nat (length (getTrianglesArray (this w')))))
  /\ (forall (k fuel : nat) (w : World),
        (k < 32)%nat -> mGridSize (this w) = 2 ^ Z.of_nat k -> (k < fuel)%nat ->
        exists n w', marchCubes cube fuel field w = Some (n, w')).
Proof.
  split; [|split].
  - intros fuel level pos gridSize w w' n Hrun.
    destruct (treeTraversal_effect cube field _ _ _ _ _ _ _ Hrun) as (evs & Hext).
    eapply extends_count. exact Hext.
  - intros fuel w w' n Hempty Hrun. rewrite marchCubes_run in Hrun.
    destruct (treeTraversal_effect cube field _ _ _ _ _ _ _ Hrun) as (evs & Hext).
    destruct (extends_count _ _ _ _ Hext) as (ts & Hts & Hn & Hsmall).
    unfold getTrianglesArray. rewrite Hts, Hempty, app_nil_l.
    split; assumption.
  - intros k fuel w Hk Hsize Hfuel.
    rewrite marchCubes_run, Hsize, of_Z_pow2 by exact Hk.
    destruct (treeTraversal_pow2 cube field k fuel 0 origin w Hk Hfuel)
      as (n & w' & Hrun & _).
    exists n, w'. exact Hrun.
Qed.

End CountAndBuffer.

Lemma count_is_appended_modulo_witness :
  exists n w',
    marchCubes crossingCube 3 centreField (mkWorld builder4 []) = Some (n, w')
    /\ n = Z.of_nat (length (getTrianglesArray (this w'))).
Proof.
  assert (Hexact : forall res iso pos,
             to_unsigned (cubeCount crossingCube res iso pos centreField)
             = Z.of_nat (length (cubeTriangles crossingCube res iso pos centreField))).
  { intros res iso pos. simpl.
    destruct (straddles (cubeConfiguration res iso pos centreField)); reflexivity. }
  destruct (count_is_appended_modulo crossingCube centreField Hexact)
    as (_ & Hbuffer & Hreturns).
  destruct (Hreturns 2%nat 3%nat (mkWorld builder4 [])) as (n & w' & Hrun);
    [lia|reflexivity|lia|].
  exists n, w'. split; [exact Hrun|].
  destruct (Hbuffer 3%nat (mkWorld builder4 []) w' n eq_refl Hrun) as (_ & Hsmall).
  apply Hsmall.
  assert (Hw : Some (n, w') = marchCubes crossingCube 3 centreField (mkWorld builder4 []))
    by (symmetry; exact Hrun).
  vm_compute in Hw. inversion Hw; subst. vm_compute. reflexivity.
Defined.

(* ================================================================== *)
(** * Further properties of the traversal *)

(** The point count is read into an [unsigned] (line 78): of a point set
    of exactly [2^32] points the loop visits none. *)
Lemma point_count_is_truncated (pos p : Vec3_t) (n : nat) :
  Z.of_nat n = UINT_MOD ->
  evaluateFieldAt pos (mkField (repeat p n)) = F32.sqrt F32.max_float.
Proof.
  intros Hn. unfold evaluateFieldAt.
  change (getPoints (mkField (repeat p n))) with (repeat p n).
  rewrite repeat_length, Hn.
  unfold to_unsigned. rewrite Z.mod_same by (unfold UINT_MOD; lia).
  reflexivity.
Qed.


(** X2. A traversal that returns has only appended to [mTriangles] and to the
    log: the grid size, the grid resolution and the isolevel are the ones it
    found, and what the buffer and the log held before is still there, in
    place. *)
Theorem traversal_only_appends (cube : CubeBuilder) (field : ParametricScalarField)
        (fuel level : nat) (pos : Vec3_t) (gridSize : float) (w w' : World) (n : Z) :
  treeTraversal cube fuel level pos field gridSize w = Some (n, w') ->
  mGridSize (this w') = mGridSize (this w)
  /\ mGridResolution (this w') = mGridResolution (this w)
  /\ mIsoLevel (this w') = mIsoLevel (this w)
  /\ (exists ts, mTriangles (this w') = mTriangles (this w) ++ ts)
  /\ (exists evs, calls w' = calls w ++ evs)
  /\ 0 <= n < UINT_MOD.
Proof.
  intros Hrun.
  destruct (treeTraversal_effect cube field _ _ _ _ _ _ _ Hrun) as (evs & Hc & Ht & Hn).
  rewrite Ht, Hn. simpl.
  repeat split; try reflexivity; try apply usum_range; eauto.
Qed.

Lemma traversal_only_appends_witness :
  exists w',
    treeTraversal crossingCube 1 0 origin cornerField gridSizeCutoff (mkWorld builder1 [])
    = Some (1, w')
    /\ mGridSize (this w') = 1
    /\ mGridResolution (this w') = gridSizeCutoff
    /\ mIsoLevel (this w') = iso015.
Proof.
  eexists. split; [vm_compute; reflexivity|].
  destruct (traversal_only_appends crossingCube cornerField 1 0 origin gridSizeCutoff
              (mkWorld builder1 []) _ 1 ltac:(vm_compute; reflexivity))
    as (H1 & H2 & H3 & _).
  repeat split; assumption.
Defined.

Lemma octreeCells_eq (depth : nat) (pos : Vec3_t) (gridSize : float) :
  octreeCells depth pos gridSize
  = (pos, gridSize) ::
    match depth with
    | O => []
    | S d =>
      flat_map (fun off => octreeCells d (childPos pos (gridSize / F32.two)%f32 off)
                                       (gridSize / F32.two)%f32)
               sc_vertexNormPos
    end.
Proof. destruct depth; reflexivity. Qed.

Lemma flat_map_ext_on {A B : Type} (f g : A -> list B) (l : list A) :
  (forall a, In a l -> f a = g a) -> flat_map f l = flat_map g l.
Proof.
  induction l as [|a l IH]; intros H; simpl; [reflexivity|].
  rewrite (H a (or_introl eq_refl)), IH; [reflexivity|].
  intros b Hb. apply H. right. exact Hb.
Qed.

(** Where line 38 holds on no cell of the octree, every leaf is reached. *)
Lemma octreeTrace_no_pruned_cell (b : TreeMeshBuilder) (field : ParametricScalarField)
      (depth : nat) :
  forall (level : nat) (pos : Vec3_t) (gridSize : float),
  Forall (fun c => pruneTest b (fst c) field (snd c) = false)
         (octreeCells depth pos gridSize) ->
  builtCells (octreeTrace b field depth level pos gridSize)
  = leafCells depth pos gridSize.
Proof.
  induction depth as [|d IH]; intros level pos gridSize Hnp;
    rewrite octreeCells_eq in Hnp; apply Forall_cons_iff in Hnp;
    destruct Hnp as (Hroot & Hrest); simpl in Hroot; rewrite octreeTrace_eq, Hroot.
  - reflexivity.
  - change (builtCells (Enter level pos ?g :: ?l)) with (builtCells l).
    rewrite builtCells_flat_map, leafCells_S.
    apply flat_map_ext_on. intros off Hoff. apply IH.
    rewrite Forall_forall in Hrest |- *. intros c Hc. apply Hrest.
    apply in_flat_map. exists off. split; assumption.
Qed.

(** X3. On a grid of edge [2^k] where line 38 holds on no cell of the
    octree (the root, its 8 children, and so on down to the unit cells), the
    traversal is the plain sequential build: it returns with any fuel above
    [k], the count is the [unsigned] sum of the counts of all [8^k] unit leaf
    cells, and the buffer receives the triangles of every leaf, in the order
    of the leaves. *)
Theorem no_pruning_builds_every_leaf (cube : CubeBuilder) (field : ParametricScalarField)
        (k fuel : nat) (w : World) :
  (k < 32)%nat ->
  mGridSize (this w) = 2 ^ Z.of_nat k ->
  (k < fuel)%nat ->
  Forall (fun c => pruneTest (this w) (fst c) field (snd c) = false)
         (octreeCells k origin (F32.pow2 (Z.of_nat k))) ->
  exists w',
    marchCubes cube fuel field w
    = Some (buildEveryLeaf cube (this w) field k origin (F32.pow2 (Z.of_nat k)), w')
    /\ mTriangles (this w')
       = mTriangles (this w)
         ++ emittedBy cube (this w) field (leafCells k origin (F32.pow2 (Z.of_nat k)))
    /\ Z.of_nat (length (leafCells k origin (F32.pow2 (Z.of_nat k)))) = 8 ^ Z.of_nat k.
Proof.
  intros Hk Hsize Hfuel Hnp.
  rewrite marchCubes_run, Hsize, of_Z_pow2 by exact Hk.
  destruct (treeTraversal_pow2 cube field k fuel 0 origin w Hk Hfuel)
    as (n & w' & Hrun & _ & Ht & Hn).
  rewrite (octreeTrace_no_pruned_cell _ _ _ _ _ _ Hnp) in Ht, Hn.
  exists w'. split; [rewrite Hrun, Hn; reflexivity|].
  split; [rewrite Ht; apply mTriangles_appended|apply leafCells_length].
Qed.

Lemma no_pruning_builds_every_leaf_witness :
  exists w',
    marchCubes (uniformCube 1) 2 centreField (mkWorld builder2 [])
    = Some (buildEveryLeaf (uniformCube 1) builder2 centreField 1 origin (F32.pow2 1), w')
    /\ length (mTriangles (this w')) = 8%nat.
Proof.
  destruct (no_pruning_builds_every_leaf (uniformCube 1) centreField 1 2
              (mkWorld builder2 []))
    as (w' & Hrun & Ht & _).
  - lia.
  - reflexivity.
  - lia.
  - apply (Forall_of_forallb _
             (fun c => negb (pruneTest builder2 (fst c) centreField (snd c)))).
    + intros c Hc. apply negb_true_iff. exact Hc.
    + vm_compute. reflexivity.
  - exists w'. split; [exact Hrun|]. rewrite Ht. vm_compute. reflexivity.
Defined.

(* ================================================================== *)
(** * The field evaluator on arbitrary input *)

(** ** Signs of the binary32 operations *)

Lemma binary_round_aux_sign (s : bool) (m e : Z) (l : location) :
  binary_round_aux F32.prec F32.emax s m e l = S754_nan
  \/ binary_round_aux F32.prec F32.emax s m e l = S754_zero s
  \/ binary_round_aux F32.prec F32.emax s m e l = S754_infinity s
  \/ exists m' e', binary_round_aux F32.prec F32.emax s m e l = S754_finite s m' e'.
Proof.
  unfold binary_round_aux.
  destruct (shr_fexp F32.prec F32.emax m e l) as [mrs' e'].
  destruct (shr_fexp F32.prec F32.emax _ e' loc_Exact) as [mrs'' e''].
  destruct (shr_m mrs'') as [|p|p].
  - right. left. reflexivity.
  - destruct (Z.leb e'' (F32.emax - F32.prec)).
    + right. right. right. exists p, e''. reflexivity.
    + right. right. left. reflexivity.
  - left. reflexivity.
Qed.

Lemma binary_round_aux_nonneg_or_nan (m e : Z) (l : location) :
  nonneg_or_nan (binary_round_aux F32.prec F32.emax false m e l) = true.
Proof.
  destruct (binary_round_aux_sign false m e l) as [H|[H|[H|(m' & e' & H)]]];
    rewrite H; reflexivity.
Qed.

(** A square is never negative. *)
Lemma mul_self_nonneg_or_nan (a : float) : nonneg_or_nan (a * a)%f32 = true.
Proof.
  destruct a as [s|s| |s m e]; try (destruct s; reflexivity); try reflexivity.
  unfold F32.mul, SFmul. rewrite xorb_nilpotent.
  apply binary_round_aux_nonneg_or_nan.
Qed.

(** Neither is the sum of two values that are not. *)
Lemma add_nonneg_or_nan (a b : float) :
  nonneg_or_nan a = true -> nonneg_or_nan b = true -> nonneg_or_nan (a + b)%f32 = true.
Proof.
  destruct a as [[|]|[|]| |[|] ma ea]; try discriminate;
    destruct b as [[|]|[|]| |[|] mb eb]; try discriminate; intros _ _;
      try reflexivity.
  unfold F32.add, SFadd, binary_normalize. simpl cond_Zopp.
  destruct (shl_align ma ea (Z.min ea eb)) as [ma' ea'].
  destruct (shl_align mb eb (Z.min ea eb)) as [mb' eb'].
  simpl fst. simpl Z.add. unfold binary_round.
  destruct (shl_align _ _ _) as [mz ez].
  apply binary_round_aux_nonneg_or_nan.
Qed.

Lemma distanceSquared_nonneg_or_nan (pos p : Vec3_t) :
  nonneg_or_nan (distanceSquared pos p) = true.
Proof.
  unfold distanceSquared.
  repeat apply add_nonneg_or_nan; apply mul_self_nonneg_or_nan.
Qed.

(** What [std::min] keeps is a number when the value it held was one. *)
Lemma min_is_distance (v d : float) :
  is_distance v = true -> nonneg_or_nan d = true -> is_distance (F32.min v d) = true.
Proof.
  intros Hv Hd. unfold F32.min, F32.ltb, SFltb.
  destruct (SFcompare d v) as [[| |]|] eqn:Hc; try exact Hv.
  destruct d as [sd|sd| |sd md ed]; try exact Hd.
  discriminate Hc.
Qed.

Lemma fold_min_is_distance (pos : Vec3_t) (l : list Vec3_t) (v : float) :
  is_distance v = true ->
  is_distance (fold_left (fun value p => F32.min value (distanceSquared pos p)) l v) = true.
Proof.
  revert v. induction l as [|p l IH]; intros v Hv; [exact Hv|].
  simpl. apply IH. apply min_is_distance; [exact Hv|].
  apply distanceSquared_nonneg_or_nan.
Qed.

(** ** Rounding never turns a non-negative mantissa into NaN *)

Lemma shr_1_nonneg (mrs : shr_record) : 0 <= shr_m mrs -> 0 <= shr_m (shr_1 mrs).
Proof.
  destruct mrs as [m r s]. simpl.
  destruct m as [|[p|p|]|[p|p|]]; simpl; lia.
Qed.

Lemma iter_pos_shr_1_nonneg (p : positive) :
  forall mrs, 0 <= shr_m mrs -> 0 <= shr_m (iter_pos shr_1 p mrs).
Proof.
  induction p as [p IH|p IH|]; intros mrs H; simpl.
  - apply IH, IH, shr_1_nonneg, H.
  - apply IH, IH, H.
  - apply shr_1_nonneg, H.
Qed.

Lemma shr_fexp_nonneg (m e : Z) (l : location) :
  0 <= m -> 0 <= shr_m (fst (shr_fexp F32.prec F32.emax m e l)).
Proof.
  intros Hm. unfold shr_fexp, shr.
  assert (H0 : 0 <= shr_m (shr_record_of_loc m l))
    by (destruct l as [|[| |]]; exact Hm).
  destruct (Z.sub _ e) as [|p|p]; simpl fst; try exact H0.
  apply iter_pos_shr_1_nonneg, H0.
Qed.

Lemma round_nearest_even_nonneg (m : Z) (l : location) :
  0 <= m -> 0 <= round_nearest_even m l.
Proof.
  intros Hm. unfold round_nearest_even.
  destruct l as [|[| |]]; try exact Hm; [destruct (Z.even m)|]; lia.
Qed.

Lemma binary_round_aux_not_nan (m e : Z) (l : location) :
  0 <= m -> is_distance (binary_round_aux F32.prec F32.emax false m e l) = true.
Proof.
  intros Hm. unfold binary_round_aux.
  pose proof (shr_fexp_nonneg m e l Hm) as H1.
  destruct (shr_fexp F32.prec F32.emax m e l) as [mrs' e']. simpl fst in H1.
  pose proof (shr_fexp_nonneg _ e' loc_Exact
                (round_nearest_even_nonneg _ (loc_of_shr_record mrs') H1)) as H2.
  destruct (shr_fexp F32.prec F32.emax _ e' loc_Exact) as [mrs'' e'']. simpl fst in H2.
  destruct (shr_m mrs'') as [|p|p]; [reflexivity| |lia].
  destruct (Z.leb e'' (F32.emax - F32.prec)); reflexivity.
Qed.

(** The square root of a number with the sign bit clear is one too. *)
Lemma sqrt_is_distance (v : float) :
  is_distance v = true -> is_distance (F32.sqrt v) = true.
Proof.
  destruct v as [[|]|[|]| |[|] m e]; try discriminate; intros _; try reflexivity.
  unfold F32.sqrt, SFsqrt, SFsqrt_core_binary.
  set (m' := match Z.sub e _ with Z.pos _ => _ | Z0 => _ | Z.neg _ => _ end).
  pose proof (Z.sqrtrem_sqrt m') as Hq.
  destruct (Z.sqrtrem m') as [q r]. simpl in Hq. subst q.
  apply binary_round_aux_not_nan. apply Z.sqrt_nonneg.
Qed.

(** X4. Whatever the position and the sample points (any number of them,
    with finite, infinite or NaN coordinates), [evaluateFieldAt] returns a
    number with the sign bit clear: never NaN, never a negative value, never
    [-0]. *)
Theorem evaluateFieldAt_is_a_distance (pos : Vec3_t) (field : ParametricScalarField) :
  is_distance (evaluateFieldAt pos field) = true.
Proof.
  unfold evaluateFieldAt.
  apply sqrt_is_distance, fold_min_is_distance. reflexivity.
Qed.

(** ** At a sample point *)

Lemma sub_self (a : float) : is_finite a = true -> (a - a)%f32 = S754_zero false.
Proof.
  destruct a as [[|]|s| |s m e]; try discriminate; intros _; try reflexivity.
  unfold F32.sub, SFsub. rewrite Z.sub_diag. reflexivity.
Qed.

Lemma distanceSquared_self (p : Vec3_t) :
  finite_vec p = true -> distanceSquared p p = S754_zero false.
Proof.
  unfold finite_vec. intros H.
  apply andb_prop in H. destruct H as (H & Hz).
  apply andb_prop in H. destruct H as (Hx & Hy).
  unfold distanceSquared.
  rewrite (sub_self _ Hx), (sub_self _ Hy), (sub_self _ Hz). reflexivity.
Qed.

Lemma min_takes_zero (v : float) :
  is_distance v = true -> F32.min v (S754_zero false) = S754_zero false.
Proof. destruct v as [[|]|[|]| |[|] m e]; try discriminate; reflexivity. Qed.

Lemma min_keeps_zero (d : float) :
  nonneg_or_nan d = true -> F32.min (S754_zero false) d = S754_zero false.
Proof. destruct d as [[|]|[|]| |[|] m e]; try discriminate; reflexivity. Qed.

Lemma fold_min_keeps_zero (pos : Vec3_t) (l : list Vec3_t) :
  fold_left (fun value p => F32.min value (distanceSquared pos p)) l (S754_zero false)
  = S754_zero false.
Proof.
  induction l as [|p l IH]; [reflexivity|].
  simpl. rewrite min_keeps_zero by apply distanceSquared_nonneg_or_nan. exact IH.
Qed.

(** X5. The field is exactly [+0] at every sample point: when the
    position is one of the points, has finite coordinates, and the set holds
    fewer than [2^32] points, [evaluateFieldAt] returns [+0], whatever the
    other points are. *)
Theorem evaluateFieldAt_at_sample_point (p : Vec3_t) (field : ParametricScalarField) :
  In p (getPoints field) ->
  finite_vec p = true ->
  Z.of_nat (length (getPoints field)) < UINT_MOD ->
  evaluateFieldAt p field = S754_zero false.
Proof.
  intros Hin Hfin Hlen.
  rewrite evaluateFieldAt_fold by exact Hlen.
  destruct (in_split _ _ Hin) as (l1 & l2 & ->).
  rewrite fold_left_app. simpl fold_left.
  rewrite (distanceSquared_self p Hfin).
  rewrite min_takes_zero by (apply fold_min_is_distance; reflexivity).
  rewrite fold_min_keeps_zero. reflexivity.
Qed.

Lemma evaluateFieldAt_at_sample_point_witness :
  evaluateFieldAt (mkVec3 tenth F32.zero F32.zero) cornerField = S754_zero false.
Proof.
  apply (evaluateFieldAt_at_sample_point (mkVec3 tenth F32.zero F32.zero) cornerField).
  - left. reflexivity.
  - reflexivity.
  - vm_compute. reflexivity.
Defined.

(** ** NaN coordinates *)

Lemma sub_nan_r (a : float) : (a - S754_nan)%f32 = S754_nan.
Proof. destruct a; reflexivity. Qed.

Lemma add_nan_r (a : float) : (a + S754_nan)%f32 = S754_nan.
Proof. destruct a; reflexivity. Qed.

Lemma is_nan_eq (a : float) : is_nan a = true -> a = S754_nan.
Proof. destruct a; try discriminate; reflexivity. Qed.

(** The squared distance to a point with a NaN coordinate, or from a
    position with one, is NaN. *)
Lemma distanceSquared_nan (pos p : Vec3_t) :
  nan_vec pos || nan_vec p = true -> distanceSquared pos p = S754_nan.
Proof.
  unfold nan_vec, distanceSquared. intros H.
  repeat (apply orb_prop in H; destruct H as [H|H]);
    apply is_nan_eq in H; rewrite H; rewrite ?sub_nan_r; simpl;
      rewrite ?add_nan_r; reflexivity.
Qed.

Lemma min_ignores_nan (v : float) : F32.min v S754_nan = v.
Proof. reflexivity. Qed.

(** X6. A sample point with a NaN coordinate is ignored: removing it from
    a set of fewer than [2^32] points does not change the value
    [evaluateFieldAt] returns, at any position. *)
Theorem evaluateFieldAt_ignores_nan_point (pos p : Vec3_t) (l1 l2 : list Vec3_t) :
  nan_vec p = true ->
  Z.of_nat (length (l1 ++ p :: l2)) < UINT_MOD ->
  evaluateFieldAt pos (mkField (l1 ++ p :: l2)) = evaluateFieldAt pos (mkField (l1 ++ l2)).
Proof.
  intros Hnan Hlen.
  assert (Hlen' : Z.of_nat (length (l1 ++ l2)) < UINT_MOD).
  { rewrite length_app in *. simpl in Hlen. lia. }
  rewrite !evaluateFieldAt_fold by assumption.
  simpl getPoints. rewrite !fold_left_app. simpl fold_left.
  rewrite distanceSquared_nan by (rewrite Hnan; apply orb_true_r).
  reflexivity.
Qed.

Lemma evaluateFieldAt_ignores_nan_point_witness :
  evaluateFieldAt origin
    (mkField [mkVec3 tenth F32.zero F32.zero; mkVec3 S754_nan F32.zero F32.zero])
  = evaluateFieldAt origin cornerField.
Proof.
  apply (evaluateFieldAt_ignores_nan_point origin (mkVec3 S754_nan F32.zero F32.zero)
           [mkVec3 tenth F32.zero F32.zero] []).
  - reflexivity.
  - vm_compute. reflexivity.
Defined.

Lemma fold_min_all_nan (pos : Vec3_t) (l : list Vec3_t) (v : float) :
  nan_vec pos = true ->
  fold_left (fun value p => F32.min value (distanceSquared pos p)) l v = v.
Proof.
  intros Hnan. revert v. induction l as [|p l IH]; intros v; [reflexivity|].
  simpl. rewrite distanceSquared_nan by (rewrite Hnan; reflexivity).
  rewrite min_ignores_nan. apply IH.
Qed.

(** X7. At a position with a NaN coordinate the field evaluates as if
    there were no sample point: [evaluateFieldAt] returns the square root of
    the largest float, for every point set. *)
Theorem evaluateFieldAt_at_nan_position (pos : Vec3_t) (field : ParametricScalarField) :
  nan_vec pos = true ->
  evaluateFieldAt pos field = F32.sqrt F32.max_float.
Proof.
  intros Hnan. unfold evaluateFieldAt.
  rewrite fold_min_all_nan by exact Hnan. reflexivity.
Qed.

Lemma evaluateFieldAt_at_nan_position_witness :
  evaluateFieldAt (mkVec3 S754_nan F32.zero F32.zero) centreField
  = S754_finite false 16777215 40.
Proof.
  rewrite (evaluateFieldAt_at_nan_position (mkVec3 S754_nan F32.zero F32.zero) centreField
             eq_refl).
  apply sqrt_max_float.
Defined.

(* ================================================================== *)
(** * Grid sizes the traversal does not survive *)

Lemma halve_add (m n : nat) (g : float) : halve (m + n) g = halve n (halve m g).
Proof. revert g. induction m as [|m IH]; intros g; [reflexivity|]. simpl. apply IH. Qed.

Lemma firstChildPos_add (m n : nat) (pos : Vec3_t) (g : float) :
  firstChildPos (m + n) pos g = firstChildPos n (firstChildPos m pos g) (halve m g).
Proof.
  revert pos g. induction m as [|m IH]; intros pos g; [reflexivity|]. simpl. apply IH.
Qed.

(** X8. The cutoff of line 43 is an equality test.  If, going down from a
    cell through first children, the edge never compares equal to [1.0f] and
    line 38 never holds, the call never returns: it is out of fuel whatever
    the fuel (in the code, the recursion does not end). *)
Theorem traversal_never_returns (cube : CubeBuilder) (field : ParametricScalarField)
        (b : TreeMeshBuilder) (fuel : nat) :
  forall (level : nat) (pos : Vec3_t) (gridSize : float) (w : World),
  this w = b ->
  (forall n, descends b field pos gridSize n = true) ->
  treeTraversal cube fuel level pos field gridSize w = None.
Proof.
  induction fuel as [|fuel IH]; intros level pos gridSize w Hthis Hdown; [reflexivity|].
  pose proof (Hdown 0%nat) as H0. unfold descends in H0. simpl in H0.
  apply andb_prop in H0. destruct H0 as (Hp & Hc).
  apply negb_true_iff in Hp. apply negb_true_iff in Hc.
  rewrite <- Hthis in Hp.
  rewrite (treeTraversal_split _ _ _ _ _ _ _ Hp Hc).
  unfold sc_vertexNormPos. cbn [for_each].
  unfold bind at 1. unfold bind at 1.
  rewrite (IH (S level) _ _ (entered level pos gridSize w)); [reflexivity|exact Hthis|].
  intros n. exact (Hdown (S n)).
Qed.

(** The chain below the root of [builder3]: 160 halvings of [3.0f] end in
    [+0], where it stays. *)
Lemma builder3_descends (n : nat) :
  descends builder3 originField origin (F32.of_Z 3) n = true.
Proof.
  destruct (Nat.lt_ge_cases n 160) as [Hlt|Hge].
  - assert (Hall : forallb (descends builder3 originField origin (F32.of_Z 3)) (seq 0 160) = true)
      by (vm_compute; reflexivity).
    rewrite forallb_forall in Hall. apply Hall. apply in_seq. lia.
  - replace n with (160 + (n - 160))%nat by lia.
    unfold descends. rewrite halve_add, firstChildPos_add.
    replace (halve 160 (F32.of_Z 3)) with F32.zero by (vm_compute; reflexivity).
    replace (firstChildPos 160 origin (F32.of_Z 3)) with origin by (vm_compute; reflexivity).
    assert (Hfix : forall m, halve m F32.zero = F32.zero /\ firstChildPos m origin F32.zero = origin).
    { induction m as [|m IHm]; [split; reflexivity|]. simpl.
      change (F32.zero / F32.two)%f32 with F32.zero.
      change (childPos origin F32.zero (hd origin sc_vertexNormPos)) with origin.
      exact IHm. }
    destruct (Hfix (n - 160)%nat) as (-> & ->).
    vm_compute. reflexivity.
Qed.

Lemma traversal_never_returns_witness :
  treeTraversal crossingCube 1000 0 origin originField (F32.of_Z 3) (mkWorld builder3 [])
  = None.
Proof.
  apply (traversal_never_returns crossingCube originField builder3 1000 0 origin
                                 (F32.of_Z 3) (mkWorld builder3 []) eq_refl).
  exact builder3_descends.
Defined.

(* ================================================================== *)
(** * How many calls a traversal makes *)

Lemma filter_flat_map_length {A : Type} (P : Event -> bool) (f : A -> list Event)
      (l : list A) (bound : Z) :
  (forall a, In a l -> Z.of_nat (length (filter P (f a))) <= bound) ->
  Z.of_nat (length (filter P (flat_map f l))) <= Z.of_nat (length l) * bound.
Proof.
  induction l as [|a l IH]; intros H; [simpl; lia|].
  simpl flat_map. rewrite filter_app, length_app, Nat2Z.inj_add.
  simpl length. rewrite Nat2Z.inj_succ.
  pose proof (H a (or_introl eq_refl)).
  pose proof (IH (fun b Hb => H b (or_intror Hb))).
  lia.
Qed.

Lemma octreeTrace_counts (b : TreeMeshBuilder) (field : ParametricScalarField) (depth : nat) :
  forall (level : nat) (pos : Vec3_t) (gridSize : float),
  7 * Z.of_nat (length (traversalCalls (octreeTrace b field depth level pos gridSize)))
  <= 8 ^ (Z.of_nat depth + 1) - 1
  /\ Z.of_nat (length (buildCubeCalls (octreeTrace b field depth level pos gridSize)))
     <= 8 ^ Z.of_nat depth.
Proof.
  induction depth as [|d IH]; intros level pos gridSize; rewrite octreeTrace_eq.
  - destruct (pruneTest b pos field gridSize); simpl; lia.
  - assert (Hpow : 8 ^ (Z.of_nat (S d) + 1) = 8 * 8 ^ (Z.of_nat d + 1)).
    { replace (Z.of_nat (S d) + 1) with (Z.succ (Z.of_nat d + 1)) by lia.
      apply Z.pow_succ_r. lia. }
    assert (Hpow' : 8 ^ Z.of_nat (S d) = 8 * 8 ^ Z.of_nat d).
    { rewrite Nat2Z.inj_succ. apply Z.pow_succ_r. lia. }
    assert (Hpos : 0 < 8 ^ (Z.of_nat d + 1)) by (apply Z.pow_pos_nonneg; lia).
    assert (Hpos' : 0 < 8 ^ Z.of_nat d) by (apply Z.pow_pos_nonneg; lia).
    destruct (pruneTest b pos field gridSize); [simpl; lia|].
    change (traversalCalls (Enter level pos gridSize :: ?l))
      with (Enter level pos gridSize :: traversalCalls l).
    change (buildCubeCalls (Enter level pos gridSize :: ?l)) with (buildCubeCalls l).
    cbn [length].
    unfold traversalCalls, buildCubeCalls.
    split.
    + pose proof (filter_flat_map_length (fun e => negb (isBuildCube e))
                    (fun off => octreeTrace b field d (S level)
                                  (childPos pos (gridSize / F32.two)%f32 off)
                                  (gridSize / F32.two)%f32)
                    sc_vertexNormPos
                    ((8 ^ (Z.of_nat d + 1) - 1) / 7)) as H.
      assert (Hdiv : 7 * ((8 ^ (Z.of_nat d + 1) - 1) / 7) <= 8 ^ (Z.of_nat d + 1) - 1)
        by (apply Z.mul_div_le; lia).
      change (Z.of_nat (length sc_vertexNormPos)) with 8 in H.
      assert (Hchild : forall a, In a sc_vertexNormPos ->
                Z.of_nat (length (filter (fun e => negb (isBuildCube e))
                   (octreeTrace b field d (S level)
                      (childPos pos (gridSize / F32.two)%f32 a) (gridSize / F32.two)%f32)))
                <= (8 ^ (Z.of_nat d + 1) - 1) / 7).
      { intros a _. apply Z.div_le_lower_bound; [lia|].
        apply (proj1 (IH (S level) _ _)). }
      specialize (H Hchild). lia.
    + pose proof (filter_flat_map_length isBuildCube
                    (fun off => octreeTrace b field d (S level)
                                  (childPos pos (gridSize / F32.two)%f32 off)
                                  (gridSize / F32.two)%f32)
                    sc_vertexNormPos (8 ^ Z.of_nat d)
                    (fun a _ => proj2 (IH (S level) _ _))) as H.
      change (Z.of_nat (length sc_vertexNormPos)) with 8 in H. lia.
Qed.

(** X9. On a grid of edge [2^k] ([k < 32]) a build makes at most
    [(8^(k+1) - 1) / 7] calls of [treeTraversal] (the nodes of the full
    octree) and at most [8^k], the number of unit cells, calls of
    [buildCube]; it makes at least the call on the root. *)
Theorem call_count_bounds (cube : CubeBuilder) (field : ParametricScalarField)
        (k fuel : nat) (w : World) :
  (k < 32)%nat ->
  mGridSize (this w) = 2 ^ Z.of_nat k ->
  (k < fuel)%nat ->
  exists n w' evs,
    marchCubes cube fuel field w = Some (n, w')
    /\ calls w' = calls w ++ evs
    /\ 1 <= Z.of_nat (length (traversalCalls evs))
    /\ 7 * Z.of_nat (length (traversalCalls evs)) <= 8 ^ (Z.of_nat k + 1) - 1
    /\ Z.of_nat (length (buildCubeCalls evs)) <= 8 ^ Z.of_nat k.
Proof.
  intros Hk Hsize Hfuel.
  rewrite marchCubes_run, Hsize, of_Z_pow2 by exact Hk.
  destruct (treeTraversal_pow2 cube field k fuel 0 origin w Hk Hfuel)
    as (n & w' & Hrun & Hcalls & _).
  exists n, w', (octreeTrace (this w) field k 0 origin (F32.pow2 (Z.of_nat k))).
  split; [exact Hrun|]. split; [exact Hcalls|].
  split; [|apply octreeTrace_counts].
  rewrite octreeTrace_eq.
  change (traversalCalls (Enter 0 origin ?g :: ?l)) with (Enter 0 origin g :: traversalCalls l).
  cbn [length]. lia.
Qed.

Lemma call_count_bounds_witness :
  exists n w' evs,
    marchCubes crossingCube 3 centreField (mkWorld builder4 []) = Some (n, w')
    /\ calls w' = [] ++ evs
    /\ 1 <= Z.of_nat (length (traversalCalls evs))
    /\ 7 * Z.of_nat (length (traversalCalls evs)) <= 8 ^ (Z.of_nat 2 + 1) - 1
    /\ Z.of_nat (length (buildCubeCalls evs)) <= 8 ^ Z.of_nat 2.
Proof.
  apply (call_count_bounds crossingCube centreField 2 3 (mkWorld builder4 [])).
  - lia.
  - reflexivity.
  - lia.
Defined.

(* ================================================================== *)
(** * Running twice *)

Lemma sameDelta_refl (w v : World) : sameDelta w w v v.
Proof.
  exists [], []. rewrite !appended_nil, !app_nil_r. repeat split; reflexivity.
Qed.

Lemma sameDelta_trans (w w1 w2 v v1 v2 : World) :
  sameDelta w w1 v v1 -> sameDelta w1 w2 v1 v2 -> sameDelta w w2 v v2.
Proof.
  intros (ts & evs & Hw & Hcw & Hv & Hcv) (ts' & evs' & Hw' & Hcw' & Hv' & Hcv').
  exists (ts ++ ts'), (evs ++ evs').
  rewrite Hw', Hw, Hcw', Hcw, Hv', Hv, Hcv', Hcv, !appended_appended, !app_assoc.
  repeat split; reflexivity.
Qed.

Lemma sameRun_after (w w' v v' : World) :
  sameRun w v -> sameDelta w w' v v' -> sameRun w' v'.
Proof.
  intros (Hr & Hi) (ts & evs & Hw & _ & Hv & _).
  unfold sameRun. rewrite Hw, Hv. simpl. split; assumption.
Qed.

Lemma pruneTest_sameRun (w v : World) (pos : Vec3_t)
      (field : ParametricScalarField) (gridSize : float) :
  sameRun w v ->
  pruneTest (this v) pos field gridSize = pruneTest (this w) pos field gridSize.
Proof.
  intros (Hr & Hi). unfold pruneTest, pruneThreshold, cubeCenter3D.
  rewrite Hr, Hi. reflexivity.
Qed.

Lemma for_each_sim {A : Type} (body : A -> Z -> M Z) (l : list A) :
  (forall a acc wc wc' acc' vc,
     sameRun wc vc -> body a acc wc = Some (acc', wc') ->
     exists vc', body a acc vc = Some (acc', vc') /\ sameDelta wc wc' vc vc') ->
  forall acc wc wc' acc' vc,
    sameRun wc vc -> for_each l body acc wc = Some (acc', wc') ->
    exists vc', for_each l body acc vc = Some (acc', vc') /\ sameDelta wc wc' vc vc'.
Proof.
  intros Hbody. induction l as [|a l IH]; intros acc wc wc' acc' vc Hsame Hrun.
  - inversion Hrun; subst. exists vc. split; [reflexivity|apply sameDelta_refl].
  - simpl in Hrun. apply bind_inv in Hrun.
    destruct Hrun as (acc1 & w1 & Hstep & Hrest).
    destruct (Hbody _ _ _ _ _ _ Hsame Hstep) as (v1 & Hstep' & Hd1).
    destruct (IH _ _ _ _ v1 (sameRun_after _ _ _ _ Hsame Hd1) Hrest) as (v2 & Hrest' & Hd2).
    exists v2. split; [|eapply sameDelta_trans; eassumption].
    simpl. unfold bind. rewrite Hstep'. exact Hrest'.
Qed.

(** What a call returns, appends and logs does not depend on what the
    buffer and the log held before. *)
Lemma treeTraversal_sim (cube : CubeBuilder) (field : ParametricScalarField) (fuel : nat) :
  forall (level : nat) (pos : Vec3_t) (gridSize : float) (w w' v : World) (n : Z),
  sameRun w v ->
  treeTraversal cube fuel level pos field gridSize w = Some (n, w') ->
  exists v',
    treeTraversal cube fuel level pos field gridSize v = Some (n, v')
    /\ sameDelta w w' v v'.
Proof.
  induction fuel as [|fuel IH]; intros level pos gridSize w w' v n Hsame Hrun;
    [discriminate|].
  pose proof (pruneTest_sameRun w v pos field gridSize Hsame) as Hpv.
  destruct Hsame as (Hr & Hi).
  destruct (pruneTest (this w) pos field gridSize) eqn:Hp.
  - rewrite (treeTraversal_prune _ _ _ _ _ _ _ Hp) in Hrun.
    rewrite (treeTraversal_prune _ _ _ _ _ _ _ Hpv).
    inversion Hrun; subst. eexists. split; [reflexivity|].
    exists [], [Enter level pos gridSize]. unfold entered. simpl.
    rewrite !appended_nil. repeat split; reflexivity.
  - destruct (gridSize =? gridSizeCutoff)%f32 eqn:Hc.
    + rewrite (treeTraversal_leaf _ _ _ _ _ _ _ Hp Hc) in Hrun.
      rewrite (treeTraversal_leaf _ _ _ _ _ _ _ Hpv Hc).
      inversion Hrun; subst. rewrite Hr, Hi. eexists. split; [reflexivity|].
      do 2 eexists. simpl. repeat split; reflexivity.
    + rewrite (treeTraversal_split _ _ _ _ _ _ _ Hp Hc) in Hrun.
      rewrite (treeTraversal_split _ _ _ _ _ _ _ Hpv Hc).
      assert (Hent : sameRun (entered level pos gridSize w) (entered level pos gridSize v))
        by (split; assumption).
      assert (Hbody : forall off acc wc wc' acc' vc,
                 sameRun wc vc ->
                 (n <- treeTraversal cube fuel (S level)
                         (childPos pos (gridSize / F32.two)%f32 off) field
                         (gridSize / F32.two)%f32 ;;
                  ret (uadd acc n)) wc = Some (acc', wc') ->
                 exists vc',
                   (n <- treeTraversal cube fuel (S level)
                           (childPos pos (gridSize / F32.two)%f32 off) field
                           (gridSize / F32.two)%f32 ;;
                    ret (uadd acc n)) vc = Some (acc', vc')
                   /\ sameDelta wc wc' vc vc').
      { intros off acc wc wc' acc' vc Hs Hb.
        apply bind_inv in Hb. destruct Hb as (m & w1 & Hchild & Hret).
        inversion Hret; subst.
        destruct (IH _ _ _ _ _ vc _ Hs Hchild) as (v1 & Hchild' & Hd).
        exists v1. split; [|exact Hd].
        unfold bind. rewrite Hchild'. reflexivity. }
      destruct (for_each_sim _ sc_vertexNormPos Hbody _ _ _ _ _ Hent Hrun)
        as (v' & Hrun' & (ts & evs & Hw & Hcw & Hv & Hcv)).
      exists v'. split; [exact Hrun'|].
      exists ts, (Enter level pos gridSize :: evs).
      unfold entered in *. simpl in *.
      rewrite Hcw, Hcv, <- !app_assoc. repeat split; assumption.
Qed.

(** X10. [marchCubes] does not clear the buffer and does not read it: run
    again on the builder it left, with the same field, it returns the same
    count and appends the same triangles once more, after those of the first
    run. *)
Theorem second_run_appends_again (cube : CubeBuilder) (field : ParametricScalarField)
        (fuel : nat) (w w1 : World) (n : Z) :
  marchCubes cube fuel field w = Some (n, w1) ->
  exists w2 ts,
    mTriangles (this w1) = mTriangles (this w) ++ ts
    /\ marchCubes cube fuel field w1 = Some (n, w2)
    /\ mTriangles (this w2) = mTriangles (this w) ++ ts ++ ts.
Proof.
  intros Hrun. rewrite marchCubes_run in Hrun.
  destruct (treeTraversal_effect cube field _ _ _ _ _ _ _ Hrun) as (evs0 & _ & Ht & _).
  assert (Hsame : sameRun w w1) by (unfold sameRun; rewrite Ht; split; reflexivity).
  assert (Hsize : mGridSize (this w1) = mGridSize (this w)) by (rewrite Ht; reflexivity).
  destruct (treeTraversal_sim cube field _ _ _ _ _ _ w1 _ Hsame Hrun)
    as (w2 & Hrun2 & (ts & evs & Hw & _ & Hv & _)).
  exists w2, ts.
  split; [rewrite Hw; apply mTriangles_appended|].
  split; [rewrite marchCubes_run, Hsize; exact Hrun2|].
  rewrite Hv, Hw, !mTriangles_appended, app_assoc. reflexivity.
Qed.

Lemma second_run_appends_again_witness :
  exists w2 ts,
    mTriangles (push_back builder1 (mkTriangle origin origin origin))
    = mTriangles builder1 ++ ts
    /\ marchCubes crossingCube 1 cornerField
                  (mkWorld (push_back builder1 (mkTriangle origin origin origin))
                           [Enter 0 origin gridSizeCutoff; BuildCube 0 origin gridSizeCutoff])
       = Some (1, w2)
    /\ mTriangles (this w2) = mTriangles builder1 ++ ts ++ ts.
Proof.
  apply (second_run_appends_again crossingCube cornerField 1 (mkWorld builder1 [])
           (mkWorld (push_back builder1 (mkTriangle origin origin origin))
                    [Enter 0 origin gridSizeCutoff; BuildCube 0 origin gridSizeCutoff]) 1).
  vm_compute. reflexivity.
Defined.

(* ================================================================== *)
(** * Isolevels and resolutions that switch pruning off *)

Lemma mul_nan_r (a : float) : (a * S754_nan)%f32 = S754_nan.
Proof. destruct a; reflexivity. Qed.

Lemma same_float_eq (a b : float) : same_float a b = true -> a = b.
Proof.
  destruct a as [s|s| |s m e], b as [t|t| |t n f]; simpl; try discriminate;
    try reflexivity.
  - intros H. apply eqb_prop in H. congruence.
  - intros H. apply eqb_prop in H. congruence.
  - intros H. apply andb_prop in H. destruct H as (H & He).
    apply andb_prop in H. destruct H as (Hs & Hm).
    apply eqb_prop in Hs. apply Pos.eqb_eq in Hm. apply Z.eqb_eq in He. congruence.
Qed.

Lemma nothing_exceeds_nan (v : float) : (v >? S754_nan)%f32 = false.
Proof. reflexivity. Qed.

Lemma nothing_exceeds_infinity (v : float) : (v >? S754_infinity false)%f32 = false.
Proof. destruct v as [s|[|]| |[|] m e]; reflexivity. Qed.

Lemma unprunable_never_pruned (b : TreeMeshBuilder) (pos : Vec3_t)
      (field : ParametricScalarField) (gridSize : float) :
  unprunable b = true -> pruneTest b pos field gridSize = false.
Proof.
  unfold unprunable, pruneTest, pruneThreshold. intros H.
  apply orb_prop in H. destruct H as [H|H]; [apply orb_prop in H; destruct H as [H|H]|].
  - apply is_nan_eq in H. rewrite H. apply nothing_exceeds_nan.
  - apply is_nan_eq in H. rewrite H, mul_nan_r, mul_nan_r, add_nan_r.
    apply nothing_exceeds_nan.
  - apply same_float_eq in H. rewrite H.
    destruct (sqrt3Div2 * (gridSize * mGridResolution b))%f32 as [s|[|]| |s m e];
      try apply nothing_exceeds_infinity; apply nothing_exceeds_nan.
Qed.

(** X11. With a NaN or [+inf] isolevel, or a NaN grid resolution, line 38
    holds on no cell: on a grid of edge [2^k] ([k < 32]) [marchCubes] calls
    [buildCube] on every one of the [8^k] unit cells and returns the
    [unsigned] sum of their counts, for every point set. *)
Theorem unprunable_builds_every_leaf (cube : CubeBuilder) (field : ParametricScalarField)
        (k fuel : nat) (w : World) :
  unprunable (this w) = true ->
  (k < 32)%nat ->
  mGridSize (this w) = 2 ^ Z.of_nat k ->
  (k < fuel)%nat ->
  exists w' evs,
    marchCubes cube fuel field w
    = Some (buildEveryLeaf cube (this w) field k origin (F32.pow2 (Z.of_nat k)), w')
    /\ calls w' = calls w ++ evs
    /\ builtCells evs = leafCells k origin (F32.pow2 (Z.of_nat k))
    /\ Z.of_nat (length (builtCells evs)) = 8 ^ Z.of_nat k.
Proof.
  intros Hun Hk Hsize Hfuel.
  assert (Hnp : forall (j : nat) (pos : Vec3_t), (j <= k)%nat ->
            pruneTest (this w) pos field (F32.pow2 (Z.of_nat j)) = false)
    by (intros j pos _; apply unprunable_never_pruned; exact Hun).
  rewrite marchCubes_run, Hsize, of_Z_pow2 by exact Hk.
  destruct (treeTraversal_pow2 cube field k fuel 0 origin w Hk Hfuel)
    as (n & w' & Hrun & Hcalls & _ & Hn).
  pose proof (octreeTrace_no_prune (this w) field k Hk Hnp 0%nat origin) as Hbuilt.
  exists w', (octreeTrace (this w) field k 0 origin (F32.pow2 (Z.of_nat k))).
  split; [rewrite Hrun, Hn, Hbuilt; reflexivity|].
  split; [exact Hcalls|]. split; [exact Hbuilt|].
  rewrite Hbuilt. apply leafCells_length.
Qed.

Lemma unprunable_builds_every_leaf_witness :
  exists w' evs,
    marchCubes (uniformCube 1) 2 centreField (mkWorld builder2nan [])
    = Some (buildEveryLeaf (uniformCube 1) builder2nan centreField 1 origin (F32.pow2 1), w')
    /\ calls w' = [] ++ evs
    /\ builtCells evs = leafCells 1 origin (F32.pow2 1)
    /\ Z.of_nat (length (builtCells evs)) = 8 ^ Z.of_nat 1.
Proof.
  apply (unprunable_builds_every_leaf (uniformCube 1) centreField 1 2
           (mkWorld builder2nan [])).
  - reflexivity.
  - lia.
  - reflexivity.
  - lia.
Defined.

(* ================================================================== *)
(** * Cells and levels, for every grid size *)

Lemma halve_S (n : nat) (g : float) : halve (S n) g = halve n (g / F32.two)%f32.
Proof. reflexivity. Qed.

Lemma enter_event_placed (level : nat) (pos : Vec3_t) (gridSize : float) :
  (level <= eventLevel (Enter level pos gridSize))%nat
  /\ eventGridSize (Enter level pos gridSize)
     = halve (eventLevel (Enter level pos gridSize) - level) gridSize
  /\ (isBuildCube (Enter level pos gridSize) = true ->
      (eventGridSize (Enter level pos gridSize) =? gridSizeCutoff)%f32 = true).
Proof.
  simpl. rewrite Nat.sub_diag. split; [lia|]. split; [reflexivity|discriminate].
Qed.

(** X12. Whatever the edge of the cell a call starts from, power of two
    or not, when the call returns every call of [treeTraversal] it made one
    level further down was on a cell of half the edge, and every cell it
    handed to [buildCube] has an edge that compares equal to [1.0f]. *)
Theorem cells_halve_and_builds_are_unit (cube : CubeBuilder) (field : ParametricScalarField)
        (fuel : nat) :
  forall (level : nat) (pos : Vec3_t) (gridSize : float) (w w' : World) (n : Z),
  treeTraversal cube fuel level pos field gridSize w = Some (n, w') ->
  exists evs,
    calls w' = calls w ++ evs
    /\ Forall (fun e =>
                 (level <= eventLevel e)%nat
                 /\ eventGridSize e = halve (eventLevel e - level) gridSize
                 /\ (isBuildCube e = true ->
                     (eventGridSize e =? gridSizeCutoff)%f32 = true)) evs.
Proof.
  induction fuel as [|fuel IH]; intros level pos gridSize w w' n Hrun; [discriminate|].
  pose proof (enter_event_placed level pos gridSize) as Henter.
  destruct (pruneTest (this w) pos field gridSize) eqn:Hp.
  - rewrite (treeTraversal_prune _ _ _ _ _ _ _ Hp) in Hrun. inversion Hrun; subst.
    exists [Enter level pos gridSize]. split; [reflexivity|].
    constructor; [exact Henter|constructor].
  - destruct (gridSize =? gridSizeCutoff)%f32 eqn:Hc.
    + rewrite (treeTraversal_leaf _ _ _ _ _ _ _ Hp Hc) in Hrun. inversion Hrun; subst.
      exists [Enter level pos gridSize; BuildCube level pos gridSize].
      split; [reflexivity|].
      constructor; [exact Henter|]. constructor; [|constructor].
      simpl. rewrite Nat.sub_diag. split; [lia|]. split; [reflexivity|]. intros _. exact Hc.
    + rewrite (treeTraversal_split _ _ _ _ _ _ _ Hp Hc) in Hrun.
      set (P := fun e => (level <= eventLevel e)%nat
                         /\ eventGridSize e = halve (eventLevel e - level) gridSize
                         /\ (isBuildCube e = true ->
                             (eventGridSize e =? gridSizeCutoff)%f32 = true)).
      set (I := fun (acc : Z) (wc : World) =>
                  exists evs, calls wc = calls w ++ evs /\ Forall P evs).
      assert (HI : I n w').
      { eapply (for_each_partial I); [| |exact Hrun].
        - intros off acc wc acc' wc' (evs & Hcalls & Hall) Hbody.
          apply bind_inv in Hbody. destruct Hbody as (m & w1 & Hchild & Hret).
          inversion Hret; subst acc' wc'.
          destruct (IH _ _ _ _ _ _ Hchild) as (evs' & Hcalls' & Hall').
          exists (evs ++ evs'). split; [rewrite Hcalls', Hcalls, app_assoc; reflexivity|].
          apply Forall_app. split; [exact Hall|].
          eapply Forall_impl; [|exact Hall'].
          intros e (Hl & Hg & Hb). unfold P.
          split; [lia|]. split; [|exact Hb].
          rewrite Hg. replace (eventLevel e - level)%nat with (S (eventLevel e - S level)) by lia.
          reflexivity.
        - exists [Enter level pos gridSize]. split; [reflexivity|].
          constructor; [exact Henter|constructor]. }
      exact HI.
Qed.

Lemma cells_halve_and_builds_are_unit_witness :
  match treeTraversal crossingCube 2 0 origin besideField (F32.of_Z 3) (mkWorld builder3 []) with
  | Some (n, w') =>
    length (calls w') = 9%nat
    /\ maxLevel (calls w') = 1%nat
    /\ exists evs,
         calls w' = [] ++ evs
         /\ Forall (fun e =>
                      (0 <= eventLevel e)%nat
                      /\ eventGridSize e = halve (eventLevel e - 0) (F32.of_Z 3)
                      /\ (isBuildCube e = true ->
                          (eventGridSize e =? gridSizeCutoff)%f32 = true)) evs
  | None => False
  end
  /\ match treeTraversal crossingCube 2 0 origin centreField F32.two (mkWorld builder2 []) with
     | Some (n, w') =>
       length (calls w') = 17%nat
       /\ length (buildCubeCalls (calls w')) = 8%nat
       /\ exists evs,
            calls w' = [] ++ evs
            /\ Forall (fun e =>
                         (0 <= eventLevel e)%nat
                         /\ eventGridSize e = halve (eventLevel e - 0) F32.two
                         /\ (isBuildCube e = true ->
                             (eventGridSize e =? gridSizeCutoff)%f32 = true)) evs
     | None => False
     end.
Proof.
  split.
  - destruct (treeTraversal crossingCube 2 0 origin besideField (F32.of_Z 3)
                            (mkWorld builder3 [])) as [[n w']|] eqn:Hrun.
    + pose proof (cells_halve_and_builds_are_unit _ _ _ _ _ _ _ _ _ Hrun) as Hlog.
      vm_compute in Hrun. injection Hrun as <- <-.
      split; [reflexivity|]. split; [reflexivity|exact Hlog].
    + vm_compute in Hrun. discriminate Hrun.
  - destruct (treeTraversal crossingCube 2 0 origin centreField F32.two
                            (mkWorld builder2 [])) as [[n w']|] eqn:Hrun.
    + pose proof (cells_halve_and_builds_are_unit _ _ _ _ _ _ _ _ _ Hrun) as Hlog.
      vm_compute in Hrun. injection Hrun as <- <-.
      split; [reflexivity|]. split; [reflexivity|exact Hlog].
    + vm_compute in Hrun. discriminate Hrun.
Defined.

(* ================================================================== *)
(** * The sink and the traversal together *)

(** X13. Successive calls of [emitTriangle] store the triangles in call
    order after what the buffer held: emitting [ts] one by one leaves
    [mTriangles ++ ts], longer by the number of calls, and touches nothing
    else. *)
Theorem emissions_keep_their_order (ts : list Triangle_t) (w : World) :
  exists w',
    emitAll ts w = Some (tt, w')
    /\ getTrianglesArray (this w') = getTrianglesArray (this w) ++ ts
    /\ length (getTrianglesArray (this w'))
       = (length (getTrianglesArray (this w)) + length ts)%nat
    /\ mGridSize (this w') = mGridSize (this w)
    /\ mGridResolution (this w') = mGridResolution (this w)
    /\ mIsoLevel (this w') = mIsoLevel (this w)
    /\ calls w' = calls w.
Proof.
  eexists. split; [apply emitAll_run|].
  unfold getTrianglesArray. simpl. rewrite length_app.
  repeat split; reflexivity.
Qed.

(** X14. Which cells are visited does not depend on the Cube Builder: on
    a grid of edge [2^k] ([k < 32]) two builds that differ only in what
    [buildCube] emits and returns make the same calls of [treeTraversal] and
    of [buildCube], on the same cells, in the same order. *)
Theorem visited_cells_ignore_the_cube_builder
        (cube1 cube2 : CubeBuilder) (field : ParametricScalarField)
        (k fuel : nat) (w : World) :
  (k < 32)%nat ->
  mGridSize (this w) = 2 ^ Z.of_nat k ->
  (k < fuel)%nat ->
  exists n1 n2 w1 w2 evs,
    marchCubes cube1 fuel field w = Some (n1, w1)
    /\ marchCubes cube2 fuel field w = Some (n2, w2)
    /\ calls w1 = calls w ++ evs
    /\ calls w2 = calls w ++ evs.
Proof.
  intros Hk Hsize Hfuel.
  rewrite !marchCubes_run, Hsize, of_Z_pow2 by exact Hk.
  destruct (treeTraversal_pow2 cube1 field k fuel 0 origin w Hk Hfuel)
    as (n1 & w1 & Hrun1 & Hcalls1 & _).
  destruct (treeTraversal_pow2 cube2 field k fuel 0 origin w Hk Hfuel)
    as (n2 & w2 & Hrun2 & Hcalls2 & _).
  exists n1, n2, w1, w2, (octreeTrace (this w) field k 0 origin (F32.pow2 (Z.of_nat k))).
  repeat split; assumption.
Qed.

Lemma visited_cells_ignore_the_cube_builder_witness :
  exists n1 n2 w1 w2 evs,
    marchCubes crossingCube 3 centreField (mkWorld builder4 []) = Some (n1, w1)
    /\ marchCubes (uniformCube 5) 3 centreField (mkWorld builder4 []) = Some (n2, w2)
    /\ calls w1 = [] ++ evs
    /\ calls w2 = [] ++ evs.
Proof.
  apply (visited_cells_ignore_the_cube_builder crossingCube (uniformCube 5) centreField
           2 3 (mkWorld builder4 [])).
  - lia.
  - reflexivity.
  - lia.
Defined.

(* ================================================================== *)
(** * Reached and skipped leaves, counted *)

(** X15. For every point set and every grid edge size [2^k] ([k < 32])
    the count [marchCubes] returns is the [unsigned] sum of the
    counts [buildCube] returns on the unit leaf cells the traversal reaches.
    Those and the leaf cells enclosed by a pruned cell make up all the unit
    leaf cells, so the count plus the sum over the pruned leaves is the sum
    over every leaf; the count equals the sum with no pruning applied
    whenever [buildCube] returns 0 on every unit leaf cell enclosed by a
    pruned cell. *)
Theorem traversal_count_is_reached_leaves
        (cube : CubeBuilder) (field : ParametricScalarField)
        (k fuel : nat) (w : World) :
  (k < 32)%nat ->
  mGridSize (this w) = 2 ^ Z.of_nat k ->
  (k < fuel)%nat ->
  let root := F32.pow2 (Z.of_nat k) in
  let pruned := prunedLeaves (this w) field k origin root in
  exists n w' evs,
    marchCubes cube fuel field w = Some (n, w')
    /\ calls w' = calls w ++ evs
    /\ n = usum (returnedBy cube (this w) field (builtCells evs))
    /\ Permutation (builtCells evs ++ pruned) (leafCells k origin root)
    /\ uadd n (usum (returnedBy cube (this w) field pruned))
       = buildEveryLeaf cube (this w) field k origin root
    /\ (Forall (fun p => to_unsigned (cubeCount cube (mGridResolution (this w))
                                                (mIsoLevel (this w)) p field) = 0) pruned ->
        n = buildEveryLeaf cube (this w) field k origin root).
Proof.
  intros Hk Hsize Hfuel root pruned.
  rewrite marchCubes_run, Hsize, of_Z_pow2 by exact Hk.
  destruct (treeTraversal_pow2 cube field k fuel 0 origin w Hk Hfuel)
    as (n & w' & Hrun & Hcalls & _ & Hn).
  fold root in Hrun, Hcalls, Hn.
  set (evs := octreeTrace (this w) field k 0 origin root) in *.
  assert (Hperm : Permutation (builtCells evs ++ pruned) (leafCells k origin root))
    by apply reached_or_pruned.
  assert (Hsum : uadd n (usum (returnedBy cube (this w) field pruned))
                 = buildEveryLeaf cube (this w) field k origin root).
  { unfold buildEveryLeaf. rewrite Hn, <- usum_app, <- returnedBy_app.
    apply usum_Permutation, returnedBy_Permutation, Hperm. }
  exists n, w', evs.
  repeat (split; [assumption|]).
  intros Hzero. rewrite <- Hsum.
  rewrite (usum_zero (returnedBy cube (this w) field pruned)).
  - unfold uadd. rewrite Z.add_0_r, Hn. symmetry. apply to_unsigned_idem.
  - unfold returnedBy. apply Forall_map. exact Hzero.
Qed.

Lemma traversal_count_is_reached_leaves_witness :
  exists w',
    marchCubes crossingCube 3 centreField (mkWorld builder4 [])
    = Some (buildEveryLeaf crossingCube builder4 centreField 2 origin (F32.pow2 2), w').
Proof.
  destruct (traversal_count_is_reached_leaves crossingCube centreField 2 3
              (mkWorld builder4 []))
    as (n & w' & evs & Hrun & _ & _ & _ & _ & Hall);
    [lia|reflexivity|lia|].
  exists w'. rewrite Hrun, Hall; [reflexivity|].
  apply (Forall_of_forallb _
           (fun p => to_unsigned (cubeCount crossingCube (mGridResolution builder4)
                                            (mIsoLevel builder4) p centreField) =? 0)).
  - intros p Hp. apply Z.eqb_eq. exact Hp.
  - vm_compute. reflexivity.
Defined.
